(** * MAX6675_Thermocouple: a shallow embedding of the driver

    The development follows [src/MAX6675_Thermocouple.cpp] and
    [src/MAX6675_Thermocouple.h].

    - C++ [double] is IEEE 754 binary64, embedded as [spec_float] with
      precision 53 and maximal exponent 1024 (round to nearest, ties to
      even, no NaN payload).
    - [int] is 32 bits wide and [unsigned int] / [unsigned long] are
      32-bit counters: the header includes [<deque>], which only the
      32-bit Arduino cores (ESP, ARM) ship.  Integers are [Z] with the
      wrap-around written out; an argument of an unsigned parameter
      arrives reduced modulo 2^32.
    - The Arduino primitives ([pinMode], [digitalWrite], [digitalRead],
      [delay], [millis]) act on an explicit [Board]; code that calls
      them lives in the state monad [IO].

    The properties cover the decoding of the 16-bit word, the rate limit
    of [update], the bound on the queue in every reachable state, the
    contents of the window and the accuracy of the mean after a run of
    updates, the configuration defaults and the unit conversions; three
    evaluations record where the cached mean or the queue departs from
    the documented behaviour. *)

From Stdlib Require Import ZArith List Bool Lia QArith Qpower Qabs Lqa.
From Stdlib Require Import Floats.SpecFloat.
Import ListNotations.

Local Open Scope Z_scope.

(** ** Machine integers *)

Module Int.

(** [byte] is [uint8_t]. *)
Definition to_byte (z : Z) : Z := z mod 256.

(** [int]: 32-bit two's complement. *)
Definition to_int (z : Z) : Z := (z + 2147483648) mod 4294967296 - 2147483648.

(** [unsigned int] and [unsigned long]: 32-bit counters. *)
Definition modulus : Z := 4294967296.
Definition to_unsigned (z : Z) : Z := z mod modulus.

End Int.

(** ** binary64 arithmetic *)

Module Double.

Definition prec : Z := 53.
Definition emax : Z := 1024.

Definition double : Type := spec_float.

(** The [NAN] macro. *)
Definition NAN : double := S754_nan.

Definition add : double -> double -> double := SFadd prec emax.
Definition mul : double -> double -> double := SFmul prec emax.
Definition div : double -> double -> double := SFdiv prec emax.

(** C's [x != y]: true as soon as the operands are unordered. *)
Definition ne (x y : double) : bool := negb (SFeqb x y).

(** Integer to [double] conversion (exact below 2^53). *)
Definition of_Z (z : Z) : double := binary_normalize prec emax z 0 false.

Definition is_nan (x : double) : bool :=
  match x with S754_nan => true | _ => false end.

Definition is_finite (x : double) : bool :=
  match x with S754_zero _ | S754_finite _ _ _ => true | _ => false end.

(** The literals of the source. *)
Definition zero : double := S754_zero false.
Definition c0_25 : double := S754_finite false 4503599627370496 (-54).
Definition c273_15 : double := S754_finite false 4805305618032230 (-44).
Definition c9_0 : double := S754_finite false 5066549580791808 (-49).
Definition c5_0 : double := S754_finite false 5629499534213120 (-50).
Definition c32 : double := of_Z 32.

(** The rational a finite [double] denotes, in lowest terms. *)
Definition to_Q (x : double) : option Q :=
  match x with
  | S754_zero _ => Some 0%Q
  | S754_finite s m e =>
      let v := match e with
               | Zneg p => Qmake (Zpos m) (2 ^ p)
               | _ => inject_Z (Zpos m * 2 ^ e)
               end in
      Some (Qred (if s then Qopp v else v))
  | _ => None
  end.

End Double.

Import Double.

(** ** The board: Arduino primitives as state transformers *)

Inductive PinMode := INPUT | OUTPUT.

Definition LOW : bool := false.
Definition HIGH : bool := true.

Inductive PinEvent :=
| EvPinMode (pin : Z) (mode : PinMode)
| EvWrite (pin : Z) (level : bool).

(** [clock] is the millisecond counter behind [millis()]; [SO_levels]
    are the levels the input line presents at the successive
    [digitalRead] calls (the driver reads one pin only, and an exhausted
    line reads [LOW]); [trace] records the configuration and the writes,
    newest first. *)
Record Board := mkBoard {
  clock : Z;
  SO_levels : list bool;
  trace : list PinEvent
}.

Definition IO (A : Type) : Type := Board -> A * Board.

Definition ret {A} (a : A) : IO A := fun b => (a, b).

Definition bind {A B} (m : IO A) (k : A -> IO B) : IO B :=
  fun b => let (a, b') := m b in k a b'.

Declare Scope io_scope.
Delimit Scope io_scope with io.
Notation "x <- m ;; k" := (bind m (fun x => k))
  (at level 100, m at next level, right associativity) : io_scope.
Notation "m ;; k" := (bind m (fun _ => k))
  (at level 100, right associativity) : io_scope.
Local Open Scope io_scope.

Definition pinMode (pin : Z) (mode : PinMode) : IO unit :=
  fun b => (tt, mkBoard (clock b) (SO_levels b) (EvPinMode pin mode :: trace b)).

Definition digitalWrite (pin : Z) (level : bool) : IO unit :=
  fun b => (tt, mkBoard (clock b) (SO_levels b) (EvWrite pin level :: trace b)).

Definition digitalRead (pin : Z) : IO bool :=
  fun b => (hd LOW (SO_levels b), mkBoard (clock b) (tl (SO_levels b)) (trace b)).

Definition delay (ms : Z) : IO unit :=
  fun b => (tt, mkBoard (Int.to_unsigned (clock b + ms)) (SO_levels b) (trace b)).

Definition millis : IO Z := fun b => (clock b, b).

(** ** The device *)

Definition MAX6675_DEFAULT_READINGS_NUMBER : Z := 5.
Definition MAX6675_DEFAULT_DELAY_TIME : Z := 250.

(** The fields of [class MAX6675_Thermocouple]; [dataPoints] is the
    deque the pointer designates, front first. *)
Record MAX6675_Thermocouple := mkDevice {
  SCK_pin : Z;
  CS_pin : Z;
  SO_pin : Z;
  readingsNumber : Z;
  delayTime : Z;
  dataPoints : list double;
  meanTempC : double
}.

(** [validate]: [(data > 0) ? data : min]. *)
Definition validate (data min : Z) : Z :=
  if data >? 0 then data else min.

(** [setReadingsNumber(const unsigned int newReadingsNumber)]: whatever
    integer the caller passes arrives converted to [unsigned int], i.e.
    reduced modulo 2^32. *)
Definition setReadingsNumber (this : MAX6675_Thermocouple) (newReadingsNumber : Z)
  : MAX6675_Thermocouple :=
  let newReadingsNumber := Int.to_unsigned newReadingsNumber in
  mkDevice (SCK_pin this) (CS_pin this) (SO_pin this)
           (validate newReadingsNumber MAX6675_DEFAULT_READINGS_NUMBER)
           (delayTime this)
           []
           (meanTempC this).

(** [setDelayTime(const unsigned long newDelayTime)]: the argument
    arrives converted to [unsigned long], i.e. reduced modulo 2^32. *)
Definition setDelayTime (this : MAX6675_Thermocouple) (newDelayTime : Z)
  : MAX6675_Thermocouple :=
  let newDelayTime := Int.to_unsigned newDelayTime in
  mkDevice (SCK_pin this) (CS_pin this) (SO_pin this)
           (readingsNumber this)
           (validate newDelayTime MAX6675_DEFAULT_DELAY_TIME)
           (dataPoints this)
           (meanTempC this).

Definition init (this : MAX6675_Thermocouple) : IO unit :=
  pinMode (SCK_pin this) OUTPUT ;;
  pinMode (CS_pin this) OUTPUT ;;
  pinMode (SO_pin this) INPUT ;;
  digitalWrite (CS_pin this) HIGH.

(** The five-argument constructor.  It assigns every field except
    [meanTempC], which keeps whatever the object's storage held:
    [storage] is that content (all-zero bits, i.e. [+0.0], for an object
    of static storage duration).  [readingsNumber] is an [unsigned int]
    parameter and [delayTime] an [unsigned long] one: the arguments
    arrive reduced modulo 2^32. *)
Definition construct (storage : double) (SCK CS SO readings delay_ms : Z)
  : IO MAX6675_Thermocouple :=
  let readings := Int.to_unsigned readings in
  let delay_ms := Int.to_unsigned delay_ms in
  let this := mkDevice SCK CS SO 0 0 [] storage in
  let this := setReadingsNumber this readings in
  let this := mkDevice (SCK_pin this) (CS_pin this) (SO_pin this)
                       (readingsNumber this) (delayTime this) [] (meanTempC this) in
  let this := setDelayTime this delay_ms in
  init this ;;
  ret this.

(** The three-argument constructor delegates with the defaults. *)
Definition construct_default (storage : double) (SCK CS SO : Z)
  : IO MAX6675_Thermocouple :=
  construct storage SCK CS SO
            MAX6675_DEFAULT_READINGS_NUMBER MAX6675_DEFAULT_DELAY_TIME.

(** [spiread]: the loop [for (int i = 7; i >= 0; i--)], with [n = i + 1]
    iterations left. *)
Fixpoint spiread_loop (this : MAX6675_Thermocouple) (n : nat) (value : Z) : IO Z :=
  match n with
  | O => ret value
  | S i =>
      digitalWrite (SCK_pin this) LOW ;;
      delay 1 ;;
      level <- digitalRead (SO_pin this) ;;
      let value :=
        if level then Int.to_byte (Z.lor value (Z.shiftl 1 (Z.of_nat i)))
        else value in
      digitalWrite (SCK_pin this) HIGH ;;
      delay 1 ;;
      spiread_loop this i value
  end.

Definition spiread (this : MAX6675_Thermocouple) : IO Z :=
  spiread_loop this 8 0.

Definition readValue (this : MAX6675_Thermocouple) : IO double :=
  digitalWrite (CS_pin this) LOW ;;
  delay 1 ;;
  value <- spiread this ;;
  let value := Int.to_int (Z.shiftl value 8) in
  low <- spiread this ;;
  let value := Z.lor value low in
  digitalWrite (CS_pin this) HIGH ;;
  if negb (Z.land value 4 =? 0) then ret NAN
  else
    let value := Z.shiftr value 3 in
    ret (mul (of_Z value) c0_25).

(** [recalculate]: the sum starts from [double celsiusTemp = 0]. *)
Definition recalculate (this : MAX6675_Thermocouple) : MAX6675_Thermocouple :=
  let mean :=
    if negb (Z.of_nat (length (dataPoints this)) =? readingsNumber this) then NAN
    else fold_left add (dataPoints this) zero in
  mkDevice (SCK_pin this) (CS_pin this) (SO_pin this)
           (readingsNumber this) (delayTime this) (dataPoints this) mean.

(** [std::deque::pop_front] and [push_back].  [pop_front] is undefined
    on an empty deque; [update] never calls it there, the window size
    being positive (see [store_pop_nonempty]). *)
Definition pop_front (q : list double) : list double := tl q.

Definition push_back (q : list double) (x : double) : list double := q ++ [x].

(** The body of [update] once the delay has elapsed and [readValue] has
    returned [value] (lines 55-61). *)
Definition store (this : MAX6675_Thermocouple) (value : double)
  : MAX6675_Thermocouple :=
  if ne value NAN then
    let q := dataPoints this in
    let q := if Z.of_nat (length q) >=? readingsNumber this then pop_front q else q in
    let q := push_back q (div value (of_Z (readingsNumber this))) in
    recalculate (mkDevice (SCK_pin this) (CS_pin this) (SO_pin this)
                          (readingsNumber this) (delayTime this) q (meanTempC this))
  else this.

(** [update].  The function-local [static unsigned long lastUpdate] is
    shared by all calls; it is passed in and returned. *)
Definition update (lastUpdate : Z) (this : MAX6675_Thermocouple)
  : IO (Z * MAX6675_Thermocouple) :=
  now <- millis ;;
  if Int.to_unsigned (now - lastUpdate) >? delayTime this then
    let lastUpdate := now in
    value <- readValue this ;;
    ret (lastUpdate, store this value)
  else ret (lastUpdate, this).

Definition readCelsius (this : MAX6675_Thermocouple) : double := meanTempC this.

Definition celsiusToKelvin (celsius : double) : double := add celsius c273_15.

Definition readKelvin (this : MAX6675_Thermocouple) : double :=
  celsiusToKelvin (readCelsius this).

Definition celsiusToFahrenheit (celsius : double) : double :=
  add (div (mul celsius c9_0) c5_0) c32.

Definition readFahrenheit (this : MAX6675_Thermocouple) : double :=
  celsiusToFahrenheit (readCelsius this).

(** * Vocabulary of the statements *)

(** ** Words on the line *)

(** The word that the next [n] levels of the line spell, most
    significant bit first; an exhausted line keeps reading [LOW]. *)
Fixpoint msb_first (n : nat) (levels : list bool) : Z :=
  match n with
  | O => 0
  | S i => (if hd LOW levels then 2 ^ Z.of_nat i else 0) + msb_first i (tl levels)
  end.

(** The levels that spell the low [n] bits of [w], first bit first. *)
Fixpoint levels_of (n : nat) (w : Z) : list bool :=
  match n with
  | O => []
  | S i => Z.testbit w (Z.of_nat i) :: levels_of i w
  end.

(** The 16-bit word the chip presents to one [readValue] transaction. *)
Definition clocked_word (b : Board) : Z := msb_first 16 (SO_levels b).

(** The reading a transaction on board [b] returns (see
    [readValue_sample]): it depends on the board alone. *)
Definition sample_of (b : Board) : double :=
  if Z.testbit (clocked_word b) 2 then NAN
  else mul (of_Z (Z.shiftr (clocked_word b) 3)) c0_25.

(** ** Runs of the scheduler *)

(** A call to [update] performed a protocol read when it drove the pins. *)
Definition performs_read (lastUpdate : Z) (this : MAX6675_Thermocouple) (b : Board)
  : Prop :=
  trace (snd (update lastUpdate this b)) <> trace b.

(** Consecutive calls of [update], each on the board as it stands when
    the call is made. *)
Definition run (lastUpdate : Z) (this : MAX6675_Thermocouple) (boards : list Board)
  : Z * MAX6675_Thermocouple :=
  fold_left (fun s b => fst (update (fst s) (snd s) b)) boards (lastUpdate, this).

(** Every call finds the delay elapsed since the previous read. *)
Fixpoint all_fire (lastUpdate delay : Z) (boards : list Board) : Prop :=
  match boards with
  | [] => True
  | b :: rest =>
      Int.to_unsigned (clock b - lastUpdate) > delay /\ all_fire (clock b) delay rest
  end.

(** The states a sketch can reach: the scheduler's last-update time with
    a device, starting from either constructor (the last-update time may
    already have been advanced through another instance) and closed
    under the public mutators.  The accessors change nothing. *)
Inductive reachable : Z * MAX6675_Thermocouple -> Prop :=
| reach_construct lastUpdate storage SCK CS SO n t b :
    reachable (lastUpdate, fst (construct storage SCK CS SO n t b))
| reach_construct_default lastUpdate storage SCK CS SO b :
    reachable (lastUpdate, fst (construct_default storage SCK CS SO b))
| reach_update lastUpdate this b :
    reachable (lastUpdate, this) ->
    reachable (fst (update lastUpdate this b))
| reach_setReadingsNumber lastUpdate this n :
    reachable (lastUpdate, this) ->
    reachable (lastUpdate, setReadingsNumber this n)
| reach_setDelayTime lastUpdate this t :
    reachable (lastUpdate, this) ->
    reachable (lastUpdate, setDelayTime this t).

(** The window is positive and the queue fits in it. *)
Definition window_ok (this : MAX6675_Thermocouple) : Prop :=
  0 < readingsNumber this /\
  Z.of_nat (length (dataPoints this)) <= readingsNumber this.

(** The last [n] elements of a list. *)
Definition lastn {A} (n : nat) (l : list A) : list A := skipn (length l - n) l.

(** ** Exact values and error budgets *)

(** [2 ^ e] as a rational, and the rational a double denotes ([0] for
    zeros and non-finite values). *)
Definition qpow (e : Z) : Q := (2 ^ e)%Q.

Definition val (x : double) : Q :=
  match x with
  | S754_finite s m e =>
      let v := (inject_Z (Z.pos m) * qpow e)%Q in
      if s then Qopp v else v
  | _ => 0%Q
  end.

(** The unit roundoff used in the bounds: 2^-52. *)
Definition u52 : Q := 1 # 4503599627370496.

(** The growth of the absolute error per addition: 2^-39. *)
Definition e39 : Q := 1 # 549755813888.

(** A reading the chip can deliver: a 13-bit count of quarter degrees. *)
Definition valid_reading (s : double) : Prop :=
  exists k, 0 <= k < 8192 /\ s = mul (of_Z k) c0_25.

(** The exact sum of a list of rationals, and of the values of a list of
    doubles. *)
Fixpoint sumQ (ts : list Q) : Q :=
  match ts with
  | [] => 0
  | t :: rest => t + sumQ rest
  end.

Definition sum_val (ss : list double) : Q := sumQ (map val ss).

(** A double that is [+0] or positive, of magnitude at least 2^-41. *)
Definition nonneg_double (x : double) : Prop :=
  x = S754_zero false \/
  exists m e, x = S754_finite false m e /\ -40 <= Zdigits2 (Z.pos m) + e.

(** [x] is stored for the exact quotient [t]: within relative error
    2^-52 of it. *)
Definition stored_as (x : double) (t : Q) : Prop :=
  nonneg_double x /\ (0 <= t)%Q /\ ((1 - u52) * t <= val x <= (1 + u52) * t)%Q.

(** The check run on every 13-bit count: the reading is [+0] or a
    positive double of magnitude between 2^-2 and 2^11 whose value is
    [k / 4]. *)
Definition sample_shape_ok (k : Z) : bool :=
  match mul (of_Z k) c0_25 with
  | S754_zero false => k =? 0
  | S754_finite false m e =>
      (0 <? k) && (-1 <=? Zdigits2 (Z.pos m) + e) && (Zdigits2 (Z.pos m) + e <=? 11)
      && Qeq_bool (inject_Z (Z.pos m) * qpow e) (k # 4)
  | _ => false
  end.

(** ** Pin activity *)

(** The clock pulses of [n] bit positions, newest first. *)
Definition sck_pulses (this : MAX6675_Thermocouple) (n : nat) : list PinEvent :=
  concat (repeat [EvWrite (SCK_pin this) HIGH; EvWrite (SCK_pin this) LOW] n).

(** The most recent pin event released the chip select. *)
Definition cs_released (this : MAX6675_Thermocouple) (b : Board) : Prop :=
  exists rest, trace b = EvWrite (CS_pin this) HIGH :: rest.

(** ** Decidable comparisons *)

(** Decidable equality on the results of [to_Q] and on doubles. *)
Definition optQ_eqb (x y : option Q) : bool :=
  match x, y with
  | Some p, Some q => (Qnum p =? Qnum q) && (Qden p =? Qden q)%positive
  | None, None => true
  | _, _ => false
  end.

Definition double_eqb (x y : double) : bool :=
  match x, y with
  | S754_zero a, S754_zero b => Bool.eqb a b
  | S754_infinity a, S754_infinity b => Bool.eqb a b
  | S754_nan, S754_nan => true
  | S754_finite a m e, S754_finite a' m' e' =>
      Bool.eqb a a' && (m =? m')%positive && (e =? e')
  | _, _ => false
  end.

(** ** Concrete boards and devices *)

(** Boards and devices used in the worked examples. *)
Definition board_reset : Board := mkBoard 0 [] [].

(** A board whose line spells the word for 100 quarter degrees. *)
Definition board_25C : Board :=
  mkBoard 1000 (levels_of 16 (Z.shiftl 100 3)) [].

(** The line spells a word whose bit 2 is set: thermocouple open. *)
Definition board_open : Board := mkBoard 2000 (levels_of 16 4) [].

(** Three reads, 250 ms and more apart: 25, 26 and 27 degrees. *)
Definition boards_25_26_27 : list Board :=
  [ mkBoard 1000 (levels_of 16 (Z.shiftl 100 3)) [];
    mkBoard 2000 (levels_of 16 (Z.shiftl 104 3)) [];
    mkBoard 3000 (levels_of 16 (Z.shiftl 108 3)) [] ].

(** Devices with a window of one and of two readings, 250 ms apart. *)
Definition device_w1 : MAX6675_Thermocouple :=
  mkDevice 13 10 12 1 250 [] NAN.

Definition device_w2 : MAX6675_Thermocouple :=
  mkDevice 13 10 12 2 250 [] NAN.

(** A sketch with a window of one reading, before and after a first read
    of 25 degrees. *)
Definition sketch_start : Z * MAX6675_Thermocouple :=
  (0, fst (construct zero 13 10 12 1 250 board_reset)).

Definition sketch_25C : Z * MAX6675_Thermocouple :=
  fst (update (fst sketch_start) (snd sketch_start) board_25C).

(** * Properties *)

(** ** Sanity checks of the literals *)

Example c0_25_value : to_Q c0_25 = Some (1 # 4)%Q /\ c0_25 = div (of_Z 1) (of_Z 4).
Proof. split; vm_compute; reflexivity. Qed.

Example c273_15_value : c273_15 = div (of_Z 27315) (of_Z 100).
Proof. vm_compute. reflexivity. Qed.

Example c9_0_value : c9_0 = of_Z 9 /\ c5_0 = of_Z 5.
Proof. split; vm_compute; reflexivity. Qed.

(** ** Configuration: [validate], the setters and the constructors *)

Lemma validate_pos data min : 0 < data -> validate data min = data.
Proof.
  intros H. unfold validate.
  destruct (Z.gtb_spec data 0); [reflexivity | lia].
Qed.

Lemma validate_nonpos data min : data <= 0 -> validate data min = min.
Proof.
  intros H. unfold validate.
  destruct (Z.gtb_spec data 0); [lia | reflexivity].
Qed.

Lemma validate_ge data min : 0 < min -> 0 < validate data min.
Proof.
  intros H. unfold validate.
  destruct (Z.gtb_spec data 0); lia.
Qed.

Lemma to_unsigned_range z : 0 <= Int.to_unsigned z < 4294967296.
Proof. apply Z.mod_pos_bound. reflexivity. Qed.

Lemma to_unsigned_small z : 0 <= z < 4294967296 -> Int.to_unsigned z = z.
Proof. intros H. apply Z.mod_small. exact H. Qed.

Lemma to_unsigned_idem z : Int.to_unsigned (Int.to_unsigned z) = Int.to_unsigned z.
Proof. apply to_unsigned_small, to_unsigned_range. Qed.

(** What the constructor builds, whatever the board. *)
Lemma construct_device storage SCK CS SO n t b :
  fst (construct storage SCK CS SO n t b) =
  mkDevice SCK CS SO
           (validate (Int.to_unsigned n) MAX6675_DEFAULT_READINGS_NUMBER)
           (validate (Int.to_unsigned t) MAX6675_DEFAULT_DELAY_TIME)
           [] storage.
Proof.
  unfold construct, bind, ret, setReadingsNumber, setDelayTime.
  cbn [fst readingsNumber delayTime SCK_pin CS_pin SO_pin dataPoints meanTempC].
  destruct (init _ b). cbn [fst].
  rewrite !to_unsigned_idem. reflexivity.
Qed.

(** What the setters store, for every integer a caller may write. *)
Lemma setters_store this n t :
  readingsNumber (setReadingsNumber this n)
  = validate (Int.to_unsigned n) MAX6675_DEFAULT_READINGS_NUMBER /\
  delayTime (setDelayTime this t)
  = validate (Int.to_unsigned t) MAX6675_DEFAULT_DELAY_TIME.
Proof. split; reflexivity. Qed.

(** C8: for every value of the parameters' unsigned types (0 up to
    2^32 - 1), a non-positive window size or delay, that is 0, is
    replaced by the default (5 and 250) and a positive one is kept, both
    in the setters and in the constructor; the operations are total
    functions that return a device, never an error. *)
Theorem configuration_defaults
  (this : MAX6675_Thermocouple) (storage : double) (SCK CS SO n t : Z) (b : Board) :
  0 <= n < 4294967296 ->
  0 <= t < 4294967296 ->
  readingsNumber (setReadingsNumber this n) = (if n <=? 0 then 5 else n) /\
  delayTime (setDelayTime this t) = (if t <=? 0 then 250 else t) /\
  readingsNumber (fst (construct storage SCK CS SO n t b)) = (if n <=? 0 then 5 else n) /\
  delayTime (fst (construct storage SCK CS SO n t b)) = (if t <=? 0 then 250 else t).
Proof.
  intros Hn Ht.
  rewrite construct_device. destruct (setters_store this n t) as [-> ->].
  cbn [readingsNumber delayTime].
  rewrite (to_unsigned_small n Hn), (to_unsigned_small t Ht).
  unfold MAX6675_DEFAULT_READINGS_NUMBER, MAX6675_DEFAULT_DELAY_TIME.
  destruct (Z.leb_spec n 0) as [Hn0 | Hn0], (Z.leb_spec t 0) as [Ht0 | Ht0];
    rewrite ?(validate_nonpos n) by assumption;
    rewrite ?(validate_pos n) by assumption;
    rewrite ?(validate_nonpos t) by assumption;
    rewrite ?(validate_pos t) by assumption;
    repeat split.
Qed.

(** Window size 0 and delay 0 give the defaults; 7 and 100 are kept. *)
Lemma configuration_defaults_witness :
  (readingsNumber (setReadingsNumber device_w1 0) = 5 /\
   delayTime (setDelayTime device_w1 0) = 250 /\
   readingsNumber (fst (construct zero 13 10 12 0 0 board_reset)) = 5 /\
   delayTime (fst (construct zero 13 10 12 0 0 board_reset)) = 250) /\
  (readingsNumber (setReadingsNumber device_w1 7) = 7 /\
   delayTime (setDelayTime device_w1 100) = 100 /\
   readingsNumber (fst (construct zero 13 10 12 7 100 board_reset)) = 7 /\
   delayTime (fst (construct zero 13 10 12 7 100 board_reset)) = 100).
Proof.
  split.
  - apply (configuration_defaults device_w1 zero 13 10 12 0 0 board_reset); lia.
  - apply (configuration_defaults device_w1 zero 13 10 12 7 100 board_reset); lia.
Defined.

(** C10: [setDelayTime] writes the delay and nothing else. *)
Theorem setDelayTime_frame (this : MAX6675_Thermocouple) (t : Z) :
  dataPoints (setDelayTime this t) = dataPoints this /\
  readingsNumber (setDelayTime this t) = readingsNumber this /\
  meanTempC (setDelayTime this t) = meanTempC this /\
  SCK_pin (setDelayTime this t) = SCK_pin this /\
  CS_pin (setDelayTime this t) = CS_pin this /\
  SO_pin (setDelayTime this t) = SO_pin this.
Proof. repeat split. Qed.

(** ** The protocol layer *)

Lemma msb_first_range n levels : 0 <= msb_first n levels < 2 ^ Z.of_nat n.
Proof.
  revert levels. induction n as [| i IH]; intros levels.
  - simpl. lia.
  - cbn [msb_first]. specialize (IH (tl levels)).
    rewrite Nat2Z.inj_succ, Z.pow_succ_r by lia.
    assert (0 < 2 ^ Z.of_nat i) by (apply Z.pow_pos_nonneg; lia).
    destruct (hd LOW levels); lia.
Qed.

Lemma msb_first_app n k levels :
  msb_first (n + k) levels =
  2 ^ Z.of_nat k * msb_first n levels + msb_first k (skipn n levels).
Proof.
  revert levels. induction n as [| i IH]; intros levels.
  - simpl. lia.
  - cbn [Nat.add msb_first]. rewrite IH.
    replace (skipn (S i) levels) with (skipn i (tl levels))
      by (destruct levels; [destruct i |]; reflexivity).
    rewrite Nat2Z.inj_add, Z.pow_add_r by lia.
    destruct (hd LOW levels); lia.
Qed.

Lemma lor_fresh_bit v i :
  0 <= i -> v mod 2 ^ (i + 1) = 0 -> Z.lor v (Z.shiftl 1 i) = v + 2 ^ i.
Proof.
  intros Hi Hv. rewrite Z.shiftl_1_l.
  assert (Hland : Z.land v (2 ^ i) = 0).
  { apply Z.bits_inj'. intros j Hj.
    rewrite Z.land_spec, Z.bits_0, Z.pow2_bits_eqb by lia.
    destruct (Z.eqb_spec i j) as [<- | Hne]; [| apply andb_false_r].
    rewrite andb_true_r.
    apply Z.mod_divide in Hv; [| apply Z.pow_nonzero; lia].
    destruct Hv as [k ->].
    apply Z.mul_pow2_bits_low. lia. }
  rewrite <- Z.lxor_lor by assumption.
  symmetry. apply Z.add_nocarry_lxor. assumption.
Qed.

(** [spiread_loop] shifts the next [n] levels into [value]; nothing
    wraps in the [byte]. *)
Lemma spiread_loop_value this n value b :
  (n <= 8)%nat -> 0 <= value -> value mod 2 ^ Z.of_nat n = 0 ->
  value + 2 ^ Z.of_nat n <= 256 ->
  fst (spiread_loop this n value b) = value + msb_first n (SO_levels b) /\
  SO_levels (snd (spiread_loop this n value b)) = skipn n (SO_levels b).
Proof.
  revert value b. induction n as [| i IH]; intros value b Hn H0 Hmod Hle.
  - simpl. split; [lia | reflexivity].
  - rewrite Nat2Z.inj_succ in Hmod, Hle. rewrite Z.pow_succ_r in Hle by lia.
    assert (Hpow : 0 < 2 ^ Z.of_nat i) by (apply Z.pow_pos_nonneg; lia).
    assert (Hmodi : value mod 2 ^ Z.of_nat i = 0).
    { apply Z.mod_divide in Hmod; [| apply Z.pow_nonzero; lia].
      destruct Hmod as [k ->]. rewrite Z.pow_succ_r by lia.
      replace (k * (2 * 2 ^ Z.of_nat i)) with (k * 2 * 2 ^ Z.of_nat i) by ring.
      apply Z.mod_mul. lia. }
    cbn [spiread_loop msb_first].
    unfold bind, digitalWrite, delay, digitalRead; cbn [fst snd SO_levels clock trace].
    destruct (SO_levels b) as [| level levels] eqn:Hlv; cbn [hd tl skipn].
    + specialize (IH value
        (mkBoard (Int.to_unsigned (Int.to_unsigned (clock b + 1) + 1)) []
                 (EvWrite (SCK_pin this) HIGH :: EvWrite (SCK_pin this) LOW :: trace b))).
      cbn [SO_levels] in IH. destruct IH as [IHv IHs]; try lia.
      unfold LOW, HIGH in *. cbv iota. rewrite IHv, IHs.
      split; [lia | destruct i; reflexivity].
    + destruct level.
      * rewrite lor_fresh_bit by (rewrite <- ?Z.add_1_r in *; lia || assumption).
        assert (Hb : Int.to_byte (value + 2 ^ Z.of_nat i) = value + 2 ^ Z.of_nat i)
          by (unfold Int.to_byte; apply Z.mod_small; lia).
        rewrite Hb.
        specialize (IH (value + 2 ^ Z.of_nat i)
          (mkBoard (Int.to_unsigned (Int.to_unsigned (clock b + 1) + 1)) levels
                   (EvWrite (SCK_pin this) HIGH :: EvWrite (SCK_pin this) LOW :: trace b))).
        cbn [SO_levels] in IH. destruct IH as [IHv IHs]; try lia.
        { rewrite <- Zplus_mod_idemp_l, Hmodi, Z.add_0_l. apply Z.mod_same. lia. }
        rewrite IHv, IHs. split; [lia | reflexivity].
      * specialize (IH value
          (mkBoard (Int.to_unsigned (Int.to_unsigned (clock b + 1) + 1)) levels
                   (EvWrite (SCK_pin this) HIGH :: EvWrite (SCK_pin this) LOW :: trace b))).
        cbn [SO_levels] in IH. destruct IH as [IHv IHs]; try lia.
        rewrite IHv, IHs. split; [lia | reflexivity].
Qed.

Lemma spiread_value this b :
  fst (spiread this b) = msb_first 8 (SO_levels b) /\
  SO_levels (snd (spiread this b)) = skipn 8 (SO_levels b).
Proof.
  unfold spiread.
  destruct (spiread_loop_value this 8 0 b) as [Hv Hs];
    [lia | lia | reflexivity | simpl; lia |].
  rewrite Hv, Hs. split; [lia | reflexivity].
Qed.

Lemma lor_bytes hi lo :
  0 <= lo < 256 -> Z.lor (hi * 256) lo = hi * 256 + lo.
Proof.
  intros Hlo.
  assert (Hland : Z.land (hi * 256) lo = 0).
  { apply Z.bits_inj'. intros j Hj.
    rewrite Z.land_spec, Z.bits_0.
    destruct (Z.ltb_spec j 8) as [Hlt | Hge].
    - change 256 with (2 ^ 8). rewrite Z.mul_pow2_bits_low by lia. reflexivity.
    - rewrite <- (Z.mod_small lo (2 ^ 8)) by (change (2 ^ 8) with 256; lia).
      rewrite Z.mod_pow2_bits_high by lia. apply andb_false_r. }
  rewrite <- Z.lxor_lor by assumption.
  symmetry. apply Z.add_nocarry_lxor. assumption.
Qed.

Lemma land_flag v : (Z.land v 4 =? 0) = negb (Z.testbit v 2).
Proof.
  assert (H : Z.land v 4 = if Z.testbit v 2 then 4 else 0).
  { apply Z.bits_inj'. intros j Hj.
    rewrite Z.land_spec. change 4 with (2 ^ 2) at 1.
    rewrite Z.pow2_bits_eqb by lia.
    destruct (Z.eqb_spec 2 j) as [<- | Hne].
    - rewrite andb_true_r. destruct (Z.testbit v 2) eqn:E; [reflexivity |].
      symmetry. apply Z.bits_0.
    - rewrite andb_false_r. destruct (Z.testbit v 2).
      + change 4 with (2 ^ 2). rewrite Z.pow2_bits_eqb by lia.
        symmetry. apply Z.eqb_neq. assumption.
      + symmetry. apply Z.bits_0. }
  rewrite H. destruct (Z.testbit v 2); reflexivity.
Qed.

(** The integer [readValue] holds after the two [spiread] calls. *)
Lemma readValue_word hi lo :
  0 <= hi < 256 -> 0 <= lo < 256 ->
  Z.lor (Int.to_int (Z.shiftl hi 8)) lo = 256 * hi + lo.
Proof.
  intros Hhi Hlo. rewrite Z.shiftl_mul_pow2 by lia. change (2 ^ 8) with 256.
  assert (Hint : Int.to_int (hi * 256) = hi * 256).
  { unfold Int.to_int. rewrite Z.mod_small by lia. lia. }
  rewrite Hint, lor_bytes by assumption. lia.
Qed.

Lemma readValue_value this b :
  fst (readValue this b) =
  if Z.testbit (clocked_word b) 2 then NAN
  else mul (of_Z (Z.shiftr (clocked_word b) 3)) c0_25.
Proof.
  unfold readValue, bind.
  unfold digitalWrite at 1, delay at 1. cbn [clock SO_levels trace].
  set (b1 := mkBoard _ (SO_levels b) _).
  destruct (spiread_value this b1) as [Hhi Hs1].
  destruct (spiread this b1) as [hi b2]. cbn [fst snd] in Hhi, Hs1.
  destruct (spiread_value this b2) as [Hlo Hs2].
  destruct (spiread this b2) as [lo b3]. cbn [fst snd] in Hlo, Hs2.
  subst b1. cbn [SO_levels] in Hhi, Hs1. rewrite Hs1 in Hlo.
  pose proof (msb_first_range 8 (SO_levels b)) as Rhi.
  pose proof (msb_first_range 8 (skipn 8 (SO_levels b))) as Rlo.
  change (2 ^ Z.of_nat 8) with 256 in Rhi, Rlo.
  rewrite readValue_word by lia.
  assert (Hw : 256 * hi + lo = clocked_word b).
  { unfold clocked_word. change 16%nat with (8 + 8)%nat.
    rewrite msb_first_app, Hhi, Hlo. reflexivity. }
  rewrite Hw, land_flag, negb_involutive.
  unfold digitalWrite. destruct (Z.testbit (clocked_word b) 2); reflexivity.
Qed.

(** Checking a decidable property on an initial segment of [Z]. *)
Lemma range_forallb (f : Z -> bool) (n : Z) :
  forallb f (map Z.of_nat (seq 0 (Z.to_nat n))) = true ->
  forall z, 0 <= z < n -> f z = true.
Proof.
  intros H z Hz. rewrite forallb_forall in H. apply H.
  apply in_map_iff. exists (Z.to_nat z). split; [lia |].
  apply in_seq. lia.
Qed.

Lemma optQ_eqb_eq x y : optQ_eqb x y = true -> x = y.
Proof.
  destruct x as [[a c] |], y as [[a' c'] |]; cbn; try discriminate; try reflexivity.
  intros H. apply andb_prop in H. destruct H as [H1 H2].
  apply Z.eqb_eq in H1. apply Pos.eqb_eq in H2. congruence.
Qed.

(** A 13-bit count of quarter degrees converts without rounding. *)
Lemma quarter_steps_exact k :
  0 <= k < 8192 -> to_Q (mul (of_Z k) c0_25) = Some (Qred (k # 4)).
Proof.
  intros Hk. apply optQ_eqb_eq.
  apply (range_forallb
           (fun k => optQ_eqb (to_Q (mul (of_Z k) c0_25)) (Some (Qred (k # 4))))
           8192); [| exact Hk].
  vm_compute. reflexivity.
Qed.

Lemma msb_first_levels_of n w rest :
  msb_first n (levels_of n w ++ rest) = w mod 2 ^ Z.of_nat n.
Proof.
  induction n as [| i IH].
  - simpl. symmetry. apply Z.mod_1_r.
  - cbn [levels_of msb_first app hd tl]. rewrite IH.
    rewrite Nat2Z.inj_succ.
    pose proof (Z.testbit_spec' w (Z.of_nat i) ltac:(lia)) as Hbit.
    assert (Hp : 0 < 2 ^ Z.of_nat i) by (apply Z.pow_pos_nonneg; lia).
    rewrite Z.pow_succ_r by lia.
    replace (2 * 2 ^ Z.of_nat i) with (2 ^ Z.of_nat i * 2) by ring.
    rewrite Z.rem_mul_r by lia. rewrite <- Hbit.
    destruct (Z.testbit w (Z.of_nat i)); cbn [Z.b2z]; lia.
Qed.

(** C4: a transaction returns, for the 16-bit word [w] clocked in most
    significant bit first, NaN when bit 2 of [w] is set and otherwise the
    double [(w >> 3) * 0.25], whose value is the rational [(w >> 3) / 4]
    without rounding; when the line spells [m << 3] for a 12-bit
    magnitude [m], the result is [m * 0.25], exactly [m / 4]. *)
Theorem readValue_decodes :
  (forall this b,
      let w := clocked_word b in
      0 <= w < 65536 /\
      fst (readValue this b) =
        (if Z.testbit w 2 then NAN else mul (of_Z (Z.shiftr w 3)) c0_25) /\
      to_Q (fst (readValue this b)) =
        (if Z.testbit w 2 then None else Some (Qred (Z.shiftr w 3 # 4)))) /\
  (forall this b m rest,
      0 <= m <= 4095 ->
      SO_levels b = levels_of 16 (Z.shiftl m 3) ++ rest ->
      fst (readValue this b) = mul (of_Z m) c0_25 /\
      to_Q (fst (readValue this b)) = Some (Qred (m # 4))).
Proof.
  assert (Hshift : forall w, 0 <= w < 65536 -> 0 <= Z.shiftr w 3 < 8192).
  { intros w Hw. rewrite Z.shiftr_div_pow2 by lia. change (2 ^ 3) with 8.
    split; [apply Z.div_pos; lia | apply Z.div_lt_upper_bound; lia]. }
  split.
  - intros this b w.
    assert (Hw : 0 <= w < 65536) by apply (msb_first_range 16).
    split; [exact Hw |]. rewrite readValue_value. fold w.
    destruct (Z.testbit w 2); split; try reflexivity.
    apply quarter_steps_exact, Hshift, Hw.
  - intros this b m rest Hm Hlv.
    assert (Hw : clocked_word b = Z.shiftl m 3).
    { unfold clocked_word. rewrite Hlv, msb_first_levels_of.
      rewrite Z.shiftl_mul_pow2 by lia. apply Z.mod_small.
      change (2 ^ 3) with 8. change (2 ^ Z.of_nat 16) with 65536. lia. }
    rewrite readValue_value, Hw.
    rewrite Z.shiftl_spec by lia. cbn [Z.sub Z.opp Z.add Z.pos_sub].
    rewrite Z.testbit_neg_r by lia.
    rewrite Z.shiftr_shiftl_l by lia. cbn [Z.sub Z.opp Z.add Z.pos_sub].
    rewrite Z.shiftl_0_r.
    split; [reflexivity | apply quarter_steps_exact; lia].
Qed.

Lemma readValue_decodes_witness :
  fst (readValue device_w1 board_25C) = mul (of_Z 100) c0_25 /\
  to_Q (fst (readValue device_w1 board_25C)) = Some (Qred (100 # 4)).
Proof.
  apply (proj2 readValue_decodes device_w1 board_25C 100 []).
  - lia.
  - reflexivity.
Defined.

(** ** Rounding never invents a NaN *)

Section RoundingNaN.

Variables p_ e_ : Z.

Lemma shr_1_nonneg mrs : 0 <= shr_m mrs -> 0 <= shr_m (shr_1 mrs).
Proof.
  destruct mrs as [m r s]. cbn [shr_m].
  destruct m as [| q | q]; [| destruct q | destruct q]; cbn; lia.
Qed.

Lemma iter_pos_invariant {A} (f : A -> A) (P : A -> Prop) :
  (forall a, P a -> P (f a)) -> forall n a, P a -> P (iter_pos f n a).
Proof.
  intros Hf. induction n as [n IH | n IH |]; intros a Ha; cbn [iter_pos]; auto.
Qed.

Lemma shr_nonneg mrs e n : 0 <= shr_m mrs -> 0 <= shr_m (fst (shr mrs e n)).
Proof.
  intros H. destruct n as [| q | q]; cbn [shr fst]; try assumption.
  apply (iter_pos_invariant shr_1 (fun r => 0 <= shr_m r)); [apply shr_1_nonneg | exact H].
Qed.

Lemma shr_fexp_nonneg m e l : 0 <= m -> 0 <= shr_m (fst (shr_fexp p_ e_ m e l)).
Proof.
  intros H. unfold shr_fexp. apply shr_nonneg.
  destruct l as [| []]; cbn; assumption.
Qed.

Lemma round_nearest_even_nonneg m l : 0 <= m -> 0 <= round_nearest_even m l.
Proof.
  intros H. destruct l as [| []]; cbn [round_nearest_even]; try lia.
  destruct (Z.even m); lia.
Qed.

Lemma binary_round_aux_not_nan sx mx ex lx :
  0 <= mx -> is_nan (binary_round_aux p_ e_ sx mx ex lx) = false.
Proof.
  intros H. unfold binary_round_aux.
  pose proof (shr_fexp_nonneg mx ex lx H) as H1.
  destruct (shr_fexp p_ e_ mx ex lx) as [mrs' e']. cbn [fst] in H1.
  pose proof (shr_fexp_nonneg
                (round_nearest_even (shr_m mrs') (loc_of_shr_record mrs')) e' loc_Exact
                (round_nearest_even_nonneg _ _ H1)) as H2.
  destruct (shr_fexp p_ e_ _ e' loc_Exact) as [mrs'' e'']. cbn [fst] in H2.
  destruct (shr_m mrs'') as [| q | q]; [reflexivity | | lia].
  destruct (e'' <=? e_ - p_); reflexivity.
Qed.

Lemma binary_round_not_nan sx mx ex :
  is_nan (binary_round p_ e_ sx mx ex) = false.
Proof.
  unfold binary_round. destruct (shl_align _ _ _) as [mz ez].
  apply binary_round_aux_not_nan. lia.
Qed.

Lemma binary_normalize_not_nan m e sz :
  is_nan (binary_normalize p_ e_ m e sz) = false.
Proof.
  destruct m; cbn [binary_normalize]; [reflexivity | |]; apply binary_round_not_nan.
Qed.

End RoundingNaN.

(** Adding, multiplying by or dividing by a finite non-zero constant
    yields NaN exactly when the other operand is NaN. *)
Lemma add_const_nan x s m e :
  is_nan (add x (S754_finite s m e)) = is_nan x.
Proof.
  destruct x as [sx | sx | | sx mx ex]; try reflexivity.
  unfold add, SFadd. apply binary_normalize_not_nan.
Qed.

Lemma mul_const_nan x s m e :
  is_nan (mul x (S754_finite s m e)) = is_nan x.
Proof.
  destruct x as [sx | sx | | sx mx ex]; try reflexivity.
  unfold mul, SFmul. apply binary_round_aux_not_nan. lia.
Qed.

Lemma div_const_nan x s m e :
  is_nan (div x (S754_finite s m e)) = is_nan x.
Proof.
  destruct x as [sx | sx | | sx mx ex]; try reflexivity.
  unfold div, SFdiv, SFdiv_core_binary.
  set (m' := match _ with Z0 => Z.pos mx | Zpos _ => Z.shiftl _ _ | Zneg _ => 0 end).
  assert (Hm' : 0 <= m').
  { subst m'. destruct (_ - _ - _); try lia. apply Z.shiftl_nonneg. lia. }
  pose proof (Z.div_pos m' (Z.pos m) Hm' ltac:(lia)) as Hq.
  unfold Z.div in Hq. destruct (Z.div_eucl m' (Z.pos m)) as [q r]. cbn [fst] in Hq.
  apply binary_round_aux_not_nan. exact Hq.
Qed.

Lemma c32_value : c32 = S754_finite false 4503599627370496 (-47).
Proof. vm_compute. reflexivity. Qed.

Lemma readKelvin_nan this : is_nan (readKelvin this) = is_nan (meanTempC this).
Proof.
  unfold readKelvin, celsiusToKelvin, readCelsius, c273_15. apply add_const_nan.
Qed.

Lemma readFahrenheit_nan this : is_nan (readFahrenheit this) = is_nan (meanTempC this).
Proof.
  unfold readFahrenheit, celsiusToFahrenheit, readCelsius.
  rewrite c32_value, add_const_nan.
  unfold c5_0. rewrite div_const_nan.
  unfold c9_0. apply mul_const_nan.
Qed.

(** C9: [readKelvin] is the cached mean plus 273.15 and [readFahrenheit]
    the cached mean times 9.0, divided by 5.0, plus 32; both are total
    functions of the cached mean alone, and each returns NaN exactly when
    the cached mean is NaN. *)
Theorem conversions_and_sentinel (this : MAX6675_Thermocouple) :
  readCelsius this = meanTempC this /\
  readKelvin this = add (meanTempC this) c273_15 /\
  readFahrenheit this = add (div (mul (meanTempC this) c9_0) c5_0) c32 /\
  is_nan (readKelvin this) = is_nan (meanTempC this) /\
  is_nan (readFahrenheit this) = is_nan (meanTempC this).
Proof.
  repeat split.
  - apply readKelvin_nan.
  - apply readFahrenheit_nan.
Qed.

Example conversions_at_100C :
  celsiusToKelvin (of_Z 100) = div (of_Z 37315) (of_Z 100) /\
  celsiusToFahrenheit (of_Z 100) = of_Z 212 /\
  celsiusToKelvin NAN = NAN /\ celsiusToFahrenheit NAN = NAN.
Proof. repeat split; vm_compute; reflexivity. Qed.

(** ** The sampling scheduler *)

(** The guard [value != NAN] of [update] holds for every [value]: a NaN
    is unordered with everything, itself included. *)
Lemma ne_NAN value : ne value NAN = true.
Proof. destruct value; reflexivity. Qed.

Lemma store_unfold this value :
  store this value =
  recalculate
    (mkDevice (SCK_pin this) (CS_pin this) (SO_pin this)
              (readingsNumber this) (delayTime this)
              (push_back
                 (if Z.of_nat (length (dataPoints this)) >=? readingsNumber this
                  then pop_front (dataPoints this) else dataPoints this)
                 (div value (of_Z (readingsNumber this))))
              (meanTempC this)).
Proof. unfold store. rewrite ne_NAN. reflexivity. Qed.

Lemma store_config this value :
  readingsNumber (store this value) = readingsNumber this /\
  delayTime (store this value) = delayTime this /\
  SCK_pin (store this value) = SCK_pin this /\
  CS_pin (store this value) = CS_pin this /\
  SO_pin (store this value) = SO_pin this.
Proof. rewrite store_unfold. repeat split. Qed.

Lemma store_dataPoints this value :
  dataPoints (store this value) =
  push_back
    (if Z.of_nat (length (dataPoints this)) >=? readingsNumber this
     then pop_front (dataPoints this) else dataPoints this)
    (div value (of_Z (readingsNumber this))).
Proof. rewrite store_unfold. reflexivity. Qed.

(** After [store] the cached mean is what [recalculate] computes from
    the queue. *)
Lemma store_meanTempC this value :
  meanTempC (store this value) =
  if Z.of_nat (length (dataPoints (store this value))) =? readingsNumber this
  then fold_left add (dataPoints (store this value)) zero
  else NAN.
Proof.
  rewrite store_dataPoints, store_unfold. unfold recalculate.
  cbn [meanTempC dataPoints readingsNumber].
  destruct (Z.of_nat _ =? readingsNumber this); reflexivity.
Qed.

(** [pop_front] is only reached on a non-empty deque as long as the
    window size is positive, which [validate] guarantees. *)
Lemma store_pop_nonempty this :
  0 < readingsNumber this ->
  (Z.of_nat (length (dataPoints this)) >=? readingsNumber this) = true ->
  dataPoints this <> [].
Proof.
  intros Hw Hge Hnil. rewrite Hnil in Hge. cbn [length Z.of_nat] in Hge.
  destruct (Z.geb_spec 0 (readingsNumber this)); [lia | discriminate].
Qed.

(** The two branches of [update]. *)
Lemma update_fires lastUpdate this b :
  Int.to_unsigned (clock b - lastUpdate) > delayTime this ->
  update lastUpdate this b =
  ((clock b, store this (fst (readValue this b))), snd (readValue this b)).
Proof.
  intros H. unfold update, bind, millis, ret.
  destruct (Z.gtb_spec (Int.to_unsigned (clock b - lastUpdate)) (delayTime this)); [| lia].
  destruct (readValue this b). reflexivity.
Qed.

Lemma update_gated lastUpdate this b :
  Int.to_unsigned (clock b - lastUpdate) <= delayTime this ->
  update lastUpdate this b = ((lastUpdate, this), b).
Proof.
  intros H. unfold update, bind, millis, ret.
  destruct (Z.gtb_spec (Int.to_unsigned (clock b - lastUpdate)) (delayTime this)); [lia |].
  reflexivity.
Qed.

(** A transaction leaves its mark on the board: 34 pin writes. *)
Lemma spiread_loop_trace this n value b :
  length (trace (snd (spiread_loop this n value b))) = (2 * n + length (trace b))%nat.
Proof.
  revert value b. induction n as [| i IH]; intros value b; [reflexivity |].
  cbn [spiread_loop]. unfold bind, digitalWrite, delay, digitalRead.
  cbn [fst snd clock SO_levels trace]. rewrite IH. cbn [trace length]. lia.
Qed.

Lemma spiread_trace this b :
  length (trace (snd (spiread this b))) = (16 + length (trace b))%nat.
Proof. unfold spiread. rewrite spiread_loop_trace. reflexivity. Qed.

Lemma readValue_trace this b :
  length (trace (snd (readValue this b))) = (34 + length (trace b))%nat.
Proof.
  unfold readValue, bind. unfold digitalWrite at 1, delay at 1.
  cbn [clock SO_levels trace].
  set (b1 := mkBoard _ (SO_levels b) _).
  pose proof (spiread_trace this b1) as H1.
  destruct (spiread this b1) as [hi b2]. cbn [snd] in H1.
  pose proof (spiread_trace this b2) as H2.
  destruct (spiread this b2) as [lo b3]. cbn [snd] in H2.
  unfold digitalWrite. unfold ret.
  destruct (negb _); cbn [snd trace length]; rewrite H2, H1; subst b1;
    cbn [trace length]; lia.
Qed.

Lemma update_fires_board lastUpdate this b :
  Int.to_unsigned (clock b - lastUpdate) > delayTime this ->
  snd (update lastUpdate this b) = snd (readValue this b).
Proof.
  intros H. rewrite update_fires by exact H.
  destruct (readValue this b). reflexivity.
Qed.

Lemma update_fires_state lastUpdate this b :
  Int.to_unsigned (clock b - lastUpdate) > delayTime this ->
  fst (update lastUpdate this b) = (clock b, store this (fst (readValue this b))).
Proof.
  intros H. rewrite update_fires by exact H.
  destruct (readValue this b). reflexivity.
Qed.

Lemma performs_read_iff lastUpdate this b :
  performs_read lastUpdate this b <->
  Int.to_unsigned (clock b - lastUpdate) > delayTime this.
Proof.
  unfold performs_read. split.
  - intros H.
    destruct (Z_gt_le_dec (Int.to_unsigned (clock b - lastUpdate)) (delayTime this))
      as [Hgt | Hle]; [exact Hgt |].
    rewrite update_gated in H by exact Hle. exfalso. apply H. reflexivity.
  - intros Hgt Heq. rewrite update_fires_board in Heq by exact Hgt.
    pose proof (readValue_trace this b) as Hlen. rewrite Heq in Hlen. lia.
Qed.

(** The elapsed time is computed modulo 2^32: a read 100 ms before the
    counter wraps is followed by the next one 300 ms later, at 200. *)
Example update_across_wraparound :
  fst (fst (update 4294967196 device_w1 (mkBoard 200 [] []))) = 200 /\
  fst (fst (update 4294967196 device_w1 (mkBoard 100 [] []))) = 4294967196.
Proof. split; vm_compute; reflexivity. Qed.

(** C5: when the clock readings of two consecutive [update] calls differ,
    modulo 2^32, by at most the configured delay (in particular by less),
    the two calls do not both perform a protocol read, and a call that
    does not read returns its last-update time, device and board as it
    received them. *)
Theorem update_rate_limited lastUpdate this b1 b2 :
  Int.to_unsigned (clock b2 - clock b1) <= delayTime this ->
  let lastUpdate1 := fst (fst (update lastUpdate this b1)) in
  let this1 := snd (fst (update lastUpdate this b1)) in
  ~ (performs_read lastUpdate this b1 /\ performs_read lastUpdate1 this1 b2) /\
  (~ performs_read lastUpdate this b1 ->
   update lastUpdate this b1 = ((lastUpdate, this), b1)) /\
  (~ performs_read lastUpdate1 this1 b2 ->
   update lastUpdate1 this1 b2 = ((lastUpdate1, this1), b2)).
Proof.
  intros Hclose lastUpdate1 this1.
  assert (Hno : forall lu d b, ~ performs_read lu d b -> update lu d b = ((lu, d), b)).
  { intros lu d b H. apply update_gated.
    rewrite performs_read_iff in H. lia. }
  split; [| split; apply Hno].
  intros [H1 H2]. rewrite performs_read_iff in H1, H2.
  subst lastUpdate1 this1. rewrite update_fires_state in H2 by exact H1.
  generalize dependent (fst (readValue this b1)). intros value H2.
  cbn [fst snd] in H2.
  destruct (store_config this value) as (_ & Hd & _).
  rewrite Hd in H2. lia.
Qed.

Lemma update_rate_limited_witness :
  let r := update 0 device_w1 board_25C in
  ~ (performs_read 0 device_w1 board_25C /\
     performs_read (fst (fst r)) (snd (fst r)) (mkBoard 1100 [] [])) /\
  (~ performs_read 0 device_w1 board_25C ->
   update 0 device_w1 board_25C = ((0, device_w1), board_25C)) /\
  (~ performs_read (fst (fst r)) (snd (fst r)) (mkBoard 1100 [] []) ->
   update (fst (fst r)) (snd (fst r)) (mkBoard 1100 [] [])
   = ((fst (fst r), snd (fst r)), mkBoard 1100 [] [])).
Proof.
  apply (update_rate_limited 0 device_w1 board_25C (mkBoard 1100 [] [])).
  vm_compute. discriminate.
Defined.

(** ** Reachable states and the bound on the queue *)

Lemma length_pop_front q : length (pop_front q) = pred (length q).
Proof. destruct q; reflexivity. Qed.

Lemma length_push_back q x : length (push_back q x) = S (length q).
Proof. unfold push_back. rewrite length_app. cbn [length]. lia. Qed.

Lemma store_window_ok this value : window_ok this -> window_ok (store this value).
Proof.
  intros [Hw Hlen]. unfold window_ok.
  destruct (store_config this value) as (-> & _).
  rewrite store_dataPoints, length_push_back.
  split; [exact Hw |].
  destruct (Z.geb_spec (Z.of_nat (length (dataPoints this))) (readingsNumber this)).
  - rewrite length_pop_front. lia.
  - lia.
Qed.

Lemma update_window_ok lastUpdate this b :
  window_ok this -> window_ok (snd (fst (update lastUpdate this b))).
Proof.
  intros H.
  destruct (Z_gt_le_dec (Int.to_unsigned (clock b - lastUpdate)) (delayTime this))
    as [Hgt | Hle].
  - rewrite update_fires_state by exact Hgt. cbn [snd]. apply store_window_ok, H.
  - rewrite update_gated by exact Hle. exact H.
Qed.

Lemma reachable_window_ok s : reachable s -> window_ok (snd s).
Proof.
  induction 1 as [lu storage SCK CS SO n t b | lu storage SCK CS SO b
                 | lu this b _ IH | lu this n _ IH | lu this t _ IH]; cbn [snd] in *.
  - rewrite construct_device. split; cbn [readingsNumber dataPoints length Z.of_nat].
    + apply validate_ge. reflexivity.
    + pose proof (validate_ge (Int.to_unsigned n) MAX6675_DEFAULT_READINGS_NUMBER eq_refl). lia.
  - unfold construct_default. rewrite construct_device.
    split; vm_compute; [reflexivity | discriminate].
  - apply update_window_ok, IH.
  - split; cbn [setReadingsNumber readingsNumber dataPoints length Z.of_nat].
    + apply validate_ge. reflexivity.
    + pose proof (validate_ge (Int.to_unsigned n) MAX6675_DEFAULT_READINGS_NUMBER eq_refl). lia.
  - exact IH.
Qed.

(** C6: in every reachable state the queue holds at most
    [readingsNumber] elements (so the bound holds after every public
    operation, the accessors changing nothing), and an [update] that
    reads while the queue is at capacity drops the front element and
    appends the new one. *)
Theorem queue_within_window (s : Z * MAX6675_Thermocouple) :
  reachable s ->
  let lastUpdate := fst s in
  let this := snd s in
  Z.of_nat (length (dataPoints this)) <= readingsNumber this /\
  (forall b,
      Int.to_unsigned (clock b - lastUpdate) > delayTime this ->
      Z.of_nat (length (dataPoints this)) = readingsNumber this ->
      exists oldest rest,
        dataPoints this = oldest :: rest /\
        dataPoints (snd (fst (update lastUpdate this b))) =
        rest ++ [div (fst (readValue this b)) (of_Z (readingsNumber this))]).
Proof.
  intros Hs lastUpdate this.
  destruct (reachable_window_ok s Hs) as [Hw Hlen]. fold this in Hw, Hlen.
  split; [exact Hlen |].
  intros b Hgate Hfull.
  rewrite update_fires_state by exact Hgate. cbn [snd].
  rewrite store_dataPoints.
  destruct (Z.geb_spec (Z.of_nat (length (dataPoints this))) (readingsNumber this));
    [| lia].
  destruct (dataPoints this) as [| oldest rest] eqn:Hq.
  - cbn [length Z.of_nat] in Hfull. lia.
  - exists oldest, rest. split; reflexivity.
Qed.

Lemma queue_within_window_witness :
  reachable sketch_25C /\
  Z.of_nat (length (dataPoints (snd sketch_25C))) <= readingsNumber (snd sketch_25C) /\
  exists oldest rest,
    dataPoints (snd sketch_25C) = oldest :: rest /\
    dataPoints (snd (fst (update (fst sketch_25C) (snd sketch_25C) board_open))) =
    rest ++ [div (fst (readValue (snd sketch_25C) board_open))
                 (of_Z (readingsNumber (snd sketch_25C)))].
Proof.
  assert (H : reachable sketch_25C) by (apply reach_update, reach_construct).
  destruct (queue_within_window _ H) as [Hbound Hevict].
  split; [exact H | split; [exact Hbound |]].
  apply Hevict; vm_compute; reflexivity.
Defined.

(** ** The averaging buffer over a run of updates *)

Lemma length_lastn {A} n (l : list A) : length (lastn n l) = Nat.min n (length l).
Proof. unfold lastn. rewrite length_skipn. lia. Qed.

Lemma lastn_all {A} n (l : list A) : (length l <= n)%nat -> lastn n l = l.
Proof.
  intros H. unfold lastn. replace (length l - n)%nat with 0%nat by lia. reflexivity.
Qed.

Lemma lastn_app_long {A} n (a l : list A) :
  (n <= length l)%nat -> lastn n (a ++ l) = lastn n l.
Proof.
  intros H. unfold lastn. rewrite length_app, skipn_app.
  replace (length a + length l - n - length a)%nat with (length l - n)%nat by lia.
  rewrite skipn_all2 by lia. reflexivity.
Qed.

Lemma lastn_lastn_app {A} n (a l : list A) :
  lastn n (lastn n a ++ l) = lastn n (a ++ l).
Proof.
  unfold lastn at 1 3. rewrite !length_app, length_lastn.
  unfold lastn. rewrite !skipn_app, length_skipn, skipn_skipn.
  f_equal.
  - f_equal. lia.
  - f_equal. lia.
Qed.

Lemma lastn_map {A B} (f : A -> B) n l : lastn n (map f l) = map f (lastn n l).
Proof. unfold lastn. rewrite length_map. apply skipn_map. Qed.

(** One [store] keeps the last [readingsNumber] elements of the queue
    extended by the new, pre-divided reading. *)
Lemma store_lastn this value :
  window_ok this ->
  dataPoints (store this value) =
  lastn (Z.to_nat (readingsNumber this))
        (dataPoints this ++ [div value (of_Z (readingsNumber this))]).
Proof.
  intros [Hw Hlen]. rewrite store_dataPoints. unfold push_back, lastn.
  rewrite length_app. cbn [length].
  destruct (Z.geb_spec (Z.of_nat (length (dataPoints this))) (readingsNumber this)).
  - replace (length (dataPoints this) + 1 - Z.to_nat (readingsNumber this))%nat
      with 1%nat by lia.
    destruct (dataPoints this); [cbn [length Z.of_nat] in *; lia | reflexivity].
  - replace (length (dataPoints this) + 1 - Z.to_nat (readingsNumber this))%nat
      with 0%nat by lia.
    reflexivity.
Qed.

(** Feeding readings one after the other. *)
Lemma fold_store_config values this :
  readingsNumber (fold_left store values this) = readingsNumber this /\
  delayTime (fold_left store values this) = delayTime this.
Proof.
  revert this. induction values as [| v values IH]; intros this; [split; reflexivity |].
  cbn [fold_left]. destruct (IH (store this v)) as [-> ->].
  destruct (store_config this v) as (-> & -> & _). split; reflexivity.
Qed.

Lemma fold_store_window_ok values this :
  window_ok this -> window_ok (fold_left store values this).
Proof.
  revert this. induction values as [| v values IH]; intros this H; [exact H |].
  cbn [fold_left]. apply IH, store_window_ok, H.
Qed.

Lemma fold_store_lastn values this :
  window_ok this ->
  dataPoints (fold_left store values this) =
  lastn (Z.to_nat (readingsNumber this))
        (dataPoints this
         ++ map (fun s => div s (of_Z (readingsNumber this))) values).
Proof.
  intros Hok. induction values as [| v values IH] using rev_ind.
  - cbn [fold_left map]. rewrite app_nil_r. symmetry. apply lastn_all.
    destruct Hok. lia.
  - rewrite fold_left_app. cbn [fold_left].
    rewrite store_lastn by (apply fold_store_window_ok, Hok).
    destruct (fold_store_config values this) as [-> _].
    rewrite IH, lastn_lastn_app, map_app, app_assoc. reflexivity.
Qed.

Lemma fold_store_mean values this :
  values <> [] ->
  meanTempC (fold_left store values this) =
  if Z.of_nat (length (dataPoints (fold_left store values this))) =? readingsNumber this
  then fold_left add (dataPoints (fold_left store values this)) zero
  else NAN.
Proof.
  intros Hne. destruct values as [| v values] using rev_ind; [congruence |].
  rewrite fold_left_app. cbn [fold_left]. rewrite store_meanTempC.
  destruct (fold_store_config values this) as [-> _]. reflexivity.
Qed.

Lemma run_cons lastUpdate this b boards :
  run lastUpdate this (b :: boards) =
  run (fst (fst (update lastUpdate this b))) (snd (fst (update lastUpdate this b))) boards.
Proof.
  unfold run. cbn [fold_left fst snd].
  destruct (fst (update lastUpdate this b)). reflexivity.
Qed.

Lemma readValue_sample this b : fst (readValue this b) = sample_of b.
Proof. apply readValue_value. Qed.

Lemma update_fires_sample lastUpdate this b :
  Int.to_unsigned (clock b - lastUpdate) > delayTime this ->
  fst (update lastUpdate this b) = (clock b, store this (sample_of b)).
Proof.
  intros H. rewrite update_fires_state by exact H.
  rewrite readValue_sample. reflexivity.
Qed.

Lemma run_all_fire_samples lastUpdate this boards :
  all_fire lastUpdate (delayTime this) boards ->
  snd (run lastUpdate this boards) = fold_left store (map sample_of boards) this.
Proof.
  revert lastUpdate this. induction boards as [| b boards IH]; intros lu this Hfire.
  - reflexivity.
  - destruct Hfire as [Hgate Hrest]. rewrite run_cons.
    rewrite update_fires_sample by exact Hgate.
    cbn [fst snd map fold_left]. apply IH.
    destruct (store_config this (sample_of b)) as (_ & -> & _). exact Hrest.
Qed.

Lemma run_all_fire lastUpdate this boards :
  all_fire lastUpdate (delayTime this) boards ->
  snd (run lastUpdate this boards) =
  fold_left store (map (fun b => fst (readValue this b)) boards) this.
Proof.
  intros H. rewrite run_all_fire_samples by exact H.
  f_equal. apply map_ext. intros b. symmetry. apply readValue_sample.
Qed.

(** * Rounding errors of the running mean *)

(** ** Digits *)

Lemma digits2_pos_log2 p : Z.pos (digits2_pos p) = Z.log2 (Z.pos p) + 1.
Proof.
  induction p as [p IH | p IH |]; cbn [digits2_pos]; try reflexivity.
  - rewrite Pos2Z.inj_succ, IH.
    change (Z.pos p~1) with (2 * Z.pos p + 1). rewrite Z.log2_succ_double by lia. lia.
  - rewrite Pos2Z.inj_succ, IH.
    change (Z.pos p~0) with (2 * Z.pos p). rewrite Z.log2_double by lia. lia.
Qed.

Lemma Zdigits2_bounds m :
  0 < m -> 2 ^ (Zdigits2 m - 1) <= m < 2 ^ Zdigits2 m.
Proof.
  intros Hm. destruct m as [| p | p]; try lia.
  cbn [Zdigits2]. rewrite digits2_pos_log2.
  replace (Z.log2 (Z.pos p) + 1 - 1) with (Z.log2 (Z.pos p)) by lia.
  rewrite Z.add_1_r. apply Z.log2_spec. lia.
Qed.

Lemma Zdigits2_unique m d :
  0 < m -> 2 ^ (d - 1) <= m < 2 ^ d -> Zdigits2 m = d.
Proof.
  intros Hm [Hlo Hhi].
  assert (Hd : 0 < d).
  { destruct (Z_lt_le_dec 0 d) as [|Hle]; [assumption |].
    assert (2 ^ d <= 1) by (destruct (Z.eq_dec d 0) as [-> |]; [simpl; lia | rewrite Z.pow_neg_r by lia; lia]).
    lia. }
  destruct m as [| p | p]; try lia.
  cbn [Zdigits2]. rewrite digits2_pos_log2.
  rewrite (Z.log2_unique (Z.pos p) (d - 1)); try lia.
  replace (Z.succ (d - 1)) with d by lia. lia.
Qed.

Lemma Zdigits2_pos m : 0 < m -> 0 < Zdigits2 m.
Proof. destruct m; cbn; lia. Qed.

(** ** Shifting right *)

Lemma shr_1_m mrs : 0 <= shr_m mrs -> shr_m (shr_1 mrs) = shr_m mrs / 2.
Proof.
  destruct mrs as [m r s]. cbn [shr_m]. intros Hm.
  destruct m as [| [q | q |] | q]; cbn [shr_1 shr_m]; try lia.
  - reflexivity.
  - change (Z.pos q~1) with (2 * Z.pos q + 1).
    apply Z.div_unique with 1; lia.
  - change (Z.pos q~0) with (2 * Z.pos q).
    apply Z.div_unique with 0; lia.
  - reflexivity.
Qed.

Lemma iter_pos_nat {A} (f : A -> A) p x :
  iter_pos f p x = Nat.iter (Pos.to_nat p) f x.
Proof.
  revert x. induction p as [p IH | p IH |]; intros x; cbn [iter_pos].
  - rewrite !IH, Pos2Nat.inj_xI.
    replace (S (2 * Pos.to_nat p)) with (Pos.to_nat p + (Pos.to_nat p + 1))%nat by lia.
    rewrite !Nat.iter_add. reflexivity.
  - rewrite !IH, Pos2Nat.inj_xO.
    replace (2 * Pos.to_nat p)%nat with (Pos.to_nat p + Pos.to_nat p)%nat by lia.
    rewrite Nat.iter_add. reflexivity.
  - reflexivity.
Qed.

Lemma shr_iter_m k mrs :
  0 <= shr_m mrs ->
  shr_m (Nat.iter k shr_1 mrs) = shr_m mrs / 2 ^ Z.of_nat k.
Proof.
  intros Hm. induction k as [| k IH].
  - change (Nat.iter 0 shr_1 mrs) with mrs. cbn [Z.of_nat].
    rewrite Z.pow_0_r, Z.div_1_r. reflexivity.
  - rewrite Nat.iter_succ, shr_1_m.
    + rewrite IH, Nat2Z.inj_succ, Z.pow_succ_r by lia.
      rewrite Z.div_div by (try apply Z.pow_pos_nonneg; lia).
      f_equal. ring.
    + rewrite IH. apply Z.div_pos; [exact Hm | apply Z.pow_pos_nonneg; lia].
Qed.

Lemma shr_m_record_of_loc m l : shr_m (shr_record_of_loc m l) = m.
Proof. destruct l as [| []]; reflexivity. Qed.

(** [shr] by [n >= 0] positions divides the mantissa by [2 ^ n]. *)
Lemma shr_spec m l e n :
  0 <= m -> 0 <= n ->
  shr_m (fst (shr (shr_record_of_loc m l) e n)) = m / 2 ^ n /\
  snd (shr (shr_record_of_loc m l) e n) = e + n.
Proof.
  intros Hm Hn. destruct n as [| p | p]; cbn [shr fst snd]; try lia.
  - rewrite shr_m_record_of_loc, Z.div_1_r. split; [reflexivity | lia].
  - rewrite iter_pos_nat, shr_iter_m by (rewrite shr_m_record_of_loc; exact Hm).
    rewrite shr_m_record_of_loc, positive_nat_Z. split; reflexivity.
Qed.

Lemma round_nearest_even_cases m l :
  round_nearest_even m l = m \/ round_nearest_even m l = m + 1.
Proof.
  destruct l as [| []]; cbn [round_nearest_even]; auto.
  destruct (Z.even m); auto.
Qed.

Lemma fexp_normal e : -1021 <= e -> fexp prec emax e = e - 53.
Proof. intros H. unfold fexp, emin, prec, emax. lia. Qed.

(** ** Rounding a mantissa of at least 53 bits *)

Lemma binary_round_aux_spec mx ex lx :
  2 ^ 52 <= mx ->
  -1021 <= Zdigits2 mx + ex <= 1023 ->
  exists m' e' n m1 m2,
    binary_round_aux prec emax false mx ex lx = S754_finite false m' e' /\
    0 <= n /\ m1 * 2 ^ n <= mx < (m1 + 1) * 2 ^ n /\ 2 ^ 52 <= m1 /\
    (m2 = m1 \/ m2 = m1 + 1) /\
    (lx = loc_Exact -> n = 0 -> m2 = m1) /\
    ex + n <= e' /\ Z.pos m' * 2 ^ (e' - (ex + n)) = m2 /\
    Zdigits2 mx + ex <= Zdigits2 (Z.pos m') + e' <= Zdigits2 mx + ex + 1 /\
    Zdigits2 (Z.pos m') = 53.
Proof.
  intros Hmx Hrange.
  assert (Hpos : 0 < mx) by (assert (0 < 2 ^ 52) by (apply Z.pow_pos_nonneg; lia); lia).
  set (d := Zdigits2 mx) in *.
  pose proof (Zdigits2_bounds mx Hpos) as Hd. fold d in Hd.
  assert (Hd53 : 53 <= d).
  { destruct (Z_lt_le_dec d 53) as [Hlt |]; [| assumption].
    assert (2 ^ d <= 2 ^ 52) by (apply Z.pow_le_mono_r; lia). lia. }
  set (n := d - 53).
  assert (Hn : 0 <= n) by (unfold n; lia).
  assert (H2n : 0 < 2 ^ n) by (apply Z.pow_pos_nonneg; lia).
  set (m1 := mx / 2 ^ n).
  assert (Hm1 : m1 * 2 ^ n <= mx < (m1 + 1) * 2 ^ n).
  { unfold m1. pose proof (Z.div_mod mx (2 ^ n) ltac:(lia)).
    pose proof (Z.mod_pos_bound mx (2 ^ n) H2n). nia. }
  assert (Hsplit : 2 ^ (d - 1) = 2 ^ 52 * 2 ^ n /\ 2 ^ d = 2 ^ 53 * 2 ^ n).
  { unfold n. rewrite <- !Z.pow_add_r by lia. split; f_equal; lia. }
  destruct Hsplit as [Hs1 Hs2].
  assert (Hm1r : 2 ^ 52 <= m1 < 2 ^ 53).
  { split.
    - unfold m1. apply Z.div_le_lower_bound; [lia |]. lia.
    - unfold m1. apply Z.div_lt_upper_bound; [lia |]. lia. }
  unfold binary_round_aux, shr_fexp.
  fold d. rewrite fexp_normal by lia.
  replace (d + ex - 53 - ex) with n by (unfold n; lia).
  destruct (shr_spec mx lx ex n ltac:(lia) Hn) as [Hsm Hse].
  destruct (shr (shr_record_of_loc mx lx) ex n) as [mrs' e1] eqn:Hshr.
  cbn [fst snd] in Hsm, Hse. fold m1 in Hsm. subst e1.
  set (m2 := round_nearest_even (shr_m mrs') (loc_of_shr_record mrs')).
  assert (Hm2 : m2 = m1 \/ m2 = m1 + 1).
  { unfold m2. rewrite <- Hsm. apply round_nearest_even_cases. }
  assert (Hexact : lx = loc_Exact -> n = 0 -> m2 = m1).
  { intros -> Hn0. rewrite Hn0 in Hshr. cbn in Hshr.
    injection Hshr as <- _. unfold m2.
    cbn [shr_m loc_of_shr_record round_nearest_even]. cbn [shr_m] in Hsm. exact Hsm. }
  assert (Hm2r : 2 ^ 52 <= m2 <= 2 ^ 53) by lia.
  assert (Hm2pos : 0 < m2) by (assert (0 < 2 ^ 52) by (apply Z.pow_pos_nonneg; lia); lia).
  destruct (Z.eq_dec m2 (2 ^ 53)) as [Htop | Hnot].
  - (* the rounding carried into a 54th bit *)
    assert (Hd2 : Zdigits2 m2 = 54).
    { apply Zdigits2_unique; [lia |]. rewrite Htop.
      change (54 - 1) with 53. split; [lia |]. apply Z.pow_lt_mono_r; lia. }
    rewrite Hd2, fexp_normal by lia.
    replace (54 + (ex + n) - 53 - (ex + n)) with 1 by lia.
    destruct (shr_spec m2 loc_Exact (ex + n) 1 ltac:(lia) ltac:(lia)) as [Hsm2 Hse2].
    destruct (shr (shr_record_of_loc m2 loc_Exact) (ex + n) 1) as [mrs'' e2].
    cbn [fst snd] in Hsm2, Hse2. subst e2. rewrite Hsm2, Htop.
    change (2 ^ 53 / 2 ^ 1) with (2 ^ 52). change (2 ^ 52) with (Z.pos (2 ^ 52)%positive) at 1.
    cbv iota beta.
    assert (Hle : (ex + n + 1 <=? emax - prec) = true)
      by (apply Z.leb_le; unfold emax, prec, n; lia).
    rewrite Hle.
    exists (2 ^ 52)%positive, (ex + n + 1), n, m1, m2.
    repeat split; try lia; try assumption;
      try (change (Zdigits2 (Z.pos (2 ^ 52))) with 53; unfold n; lia).
    replace (ex + n + 1 - (ex + n)) with 1 by lia. rewrite Htop. reflexivity.
  - assert (Hd2 : Zdigits2 m2 = 53).
    { apply Zdigits2_unique; [lia |]. change (53 - 1) with 52. lia. }
    rewrite Hd2, fexp_normal by lia.
    replace (53 + (ex + n) - 53 - (ex + n)) with 0 by lia.
    cbn [shr]. rewrite shr_m_record_of_loc.
    destruct m2 as [| q | q] eqn:Eq; try lia.
    assert (Hle : (ex + n <=? emax - prec) = true)
      by (apply Z.leb_le; unfold emax, prec, n; lia).
    rewrite Hle.
    exists q, (ex + n), n, m1, (Z.pos q).
    repeat split; try lia; try assumption; try (rewrite Hd2; unfold n; lia).
    replace (ex + n - (ex + n)) with 0 by lia. lia.
Qed.

(** ** Values in Q *)

Lemma qpow_pos e : (0 < qpow e)%Q.
Proof. apply Qpower_0_lt. reflexivity. Qed.

Lemma qpow_add a b : (qpow (a + b) == qpow a * qpow b)%Q.
Proof. apply Qpower_plus. discriminate. Qed.

Lemma qpow_Z k : 0 <= k -> (qpow k == inject_Z (2 ^ k))%Q.
Proof. intros Hk. unfold qpow. rewrite Zpower_Qpower by exact Hk. reflexivity. Qed.

Lemma qpow_le a b : a <= b -> (qpow a <= qpow b)%Q.
Proof. intros H. apply Qpower_le_compat_l; [exact H | discriminate]. Qed.

Lemma qpow_lt_inv a b : (qpow a < qpow b)%Q -> a < b.
Proof. intros H. apply (Qpower_lt_compat_l_inv 2); [exact H | reflexivity]. Qed.

(** Moving a power of two from the mantissa to the exponent. *)
Lemma scale_mantissa a k e :
  0 <= k -> (inject_Z (a * 2 ^ k) * qpow e == inject_Z a * qpow (e + k))%Q.
Proof.
  intros Hk. rewrite qpow_add, (qpow_Z k Hk), inject_Z_mult. ring.
Qed.

Lemma inject_Z_le a b : a <= b -> (inject_Z a <= inject_Z b)%Q.
Proof. intros H. rewrite <- Zle_Qle. exact H. Qed.

Lemma inject_Z_lt a b : a < b -> (inject_Z a < inject_Z b)%Q.
Proof. intros H. rewrite <- Zlt_Qlt. exact H. Qed.

Lemma val_mag_bounds m e :
  (qpow (Zdigits2 (Z.pos m) + e - 1) <= inject_Z (Z.pos m) * qpow e
   < qpow (Zdigits2 (Z.pos m) + e))%Q.
Proof.
  pose proof (Zdigits2_bounds (Z.pos m) ltac:(lia)) as [Hlo Hhi].
  pose proof (Zdigits2_pos (Z.pos m) ltac:(lia)) as Hd.
  set (d := Zdigits2 (Z.pos m)) in *.
  pose proof (qpow_pos e) as He.
  split.
  - replace (d + e - 1) with (e + (d - 1)) by lia.
    rewrite qpow_add, (qpow_Z (d - 1)) by lia.
    rewrite (Qmult_comm (qpow e)). apply Qmult_le_compat_r; [| apply Qlt_le_weak, He].
    apply inject_Z_le, Hlo.
  - replace (d + e) with (e + d) by lia.
    rewrite qpow_add, (qpow_Z d) by lia.
    rewrite (Qmult_comm (qpow e)). apply Qmult_lt_compat_r; [exact He |].
    apply inject_Z_lt, Hhi.
Qed.

Lemma val_lt_mag m e K :
  (inject_Z (Z.pos m) * qpow e <= qpow K)%Q -> Zdigits2 (Z.pos m) + e <= K + 1.
Proof.
  intros H. destruct (val_mag_bounds m e) as [Hlo _].
  assert (Hlt : (qpow (Zdigits2 (Z.pos m) + e - 1) < qpow (K + 1))%Q).
  { eapply Qle_lt_trans; [exact Hlo |]. eapply Qle_lt_trans; [exact H |].
    apply Qpower_lt_compat_l; [lia | reflexivity]. }
  apply qpow_lt_inv in Hlt. lia.
Qed.

(** ** The relative error of one rounding *)

Lemma binary_round_aux_error mx ex lx (T : Q) :
  2 ^ 52 <= mx ->
  -1021 <= Zdigits2 mx + ex <= 1023 ->
  (inject_Z mx * qpow ex <= T < (inject_Z mx + 1) * qpow ex)%Q ->
  exists m' e',
    binary_round_aux prec emax false mx ex lx = S754_finite false m' e' /\
    ((1 - u52) * T <= inject_Z (Z.pos m') * qpow e' <= (1 + u52) * T)%Q /\
    Zdigits2 mx + ex <= Zdigits2 (Z.pos m') + e' <= Zdigits2 mx + ex + 1 /\
    (lx = loc_Exact -> Zdigits2 mx = 53 ->
     (inject_Z (Z.pos m') * qpow e' == inject_Z mx * qpow ex)%Q).
Proof.
  intros Hmx Hrange [HT1 HT2].
  destruct (binary_round_aux_spec mx ex lx Hmx Hrange)
    as (m' & e' & n & m1 & m2 & Heq & Hn & [Hm1a Hm1b] & Hm1 & Hm2 & Hex & He' & Hval & Hmag & _).
  exists m', e'. split; [exact Heq |].
  assert (HV : (inject_Z (Z.pos m') * qpow e' == inject_Z m2 * qpow (ex + n))%Q).
  { rewrite <- Hval.
    rewrite scale_mantissa by lia. apply Qmult_comp; [reflexivity |].
    replace (ex + n + (e' - (ex + n))) with e' by lia. reflexivity. }
  set (G := qpow (ex + n)).
  set (P := (inject_Z m1 * G)%Q).
  assert (HG : (0 < G)%Q) by apply qpow_pos.
  assert (HP1 : (P <= inject_Z mx * qpow ex)%Q).
  { unfold P, G. rewrite <- scale_mantissa by exact Hn.
    apply Qmult_le_compat_r; [apply inject_Z_le, Hm1a | apply Qlt_le_weak, qpow_pos]. }
  assert (HP2 : ((inject_Z mx + 1) * qpow ex <= P + G)%Q).
  { assert (E : (P + G == inject_Z ((m1 + 1) * 2 ^ n) * qpow ex)%Q).
    { rewrite scale_mantissa by exact Hn. unfold P, G.
      rewrite inject_Z_plus. change (inject_Z 1) with 1%Q. ring. }
    rewrite E. apply Qmult_le_compat_r; [| apply Qlt_le_weak, qpow_pos].
    change 1%Q with (inject_Z 1). rewrite <- inject_Z_plus.
    apply inject_Z_le. lia. }
  assert (HGP : (G <= u52 * P)%Q).
  { unfold P. rewrite Qmult_assoc.
    rewrite <- (Qmult_1_l G) at 1.
    apply Qmult_le_compat_r; [| apply Qlt_le_weak, HG].
    assert (H1 : (1 == u52 * inject_Z (2 ^ 52))%Q) by reflexivity.
    rewrite H1. apply Qmult_le_l; [reflexivity | apply inject_Z_le, Hm1]. }
  assert (Hu : (0 <= u52)%Q) by discriminate.
  assert (HV2 : (inject_Z (Z.pos m') * qpow e' == P \/
                 inject_Z (Z.pos m') * qpow e' == P + G)%Q).
  { destruct Hm2 as [-> | ->]; [left | right]; rewrite HV; unfold P; fold G.
    - reflexivity.
    - rewrite inject_Z_plus. change (inject_Z 1) with 1%Q. ring. }
  assert (HuT : (u52 * P <= u52 * T)%Q).
  { apply Qmult_le_l; [reflexivity | lra]. }
  split; [| split; [exact Hmag |]].
  - destruct HV2 as [-> | ->]; split; lra.
  - intros Hl Hd.
    assert (Hn0 : n = 0).
    { pose proof (Zdigits2_bounds mx ltac:(lia)) as [_ Hhi]. rewrite Hd in Hhi.
      destruct (Z.eq_dec n 0) as [| Hne]; [assumption |].
      assert (2 <= 2 ^ n) by (change 2 with (2 ^ 1) at 1; apply Z.pow_le_mono_r; lia).
      assert (2 ^ 53 = 2 * 2 ^ 52) by reflexivity. nia. }
    rewrite HV, (Hex Hl Hn0). subst n.
    rewrite Z.pow_0_r in Hm1a, Hm1b.
    assert (m1 = mx) by lia. subst m1.
    rewrite Z.add_0_r. reflexivity.
Qed.

Lemma mag_le_of_lt m e K :
  (inject_Z (Z.pos m) * qpow e < qpow K)%Q -> Zdigits2 (Z.pos m) + e <= K.
Proof.
  intros H. destruct (val_mag_bounds m e) as [Hlo _].
  assert (Hlt : (qpow (Zdigits2 (Z.pos m) + e - 1) < qpow K)%Q)
    by (eapply Qle_lt_trans; eassumption).
  apply qpow_lt_inv in Hlt. lia.
Qed.

Lemma mag_ge_of_le m e K :
  (qpow (K - 1) <= inject_Z (Z.pos m) * qpow e)%Q -> K <= Zdigits2 (Z.pos m) + e.
Proof.
  intros H. destruct (val_mag_bounds m e) as [_ Hhi].
  assert (Hlt : (qpow (K - 1) < qpow (Zdigits2 (Z.pos m) + e))%Q)
    by (eapply Qle_lt_trans; eassumption).
  apply qpow_lt_inv in Hlt. lia.
Qed.

(** ** Aligning, then rounding *)

Lemma pos_iter_xO m d : Z.pos (Pos.iter xO m d) = Z.pos m * 2 ^ Z.pos d.
Proof.
  induction d as [| d IH] using Pos.peano_ind.
  - cbn [Pos.iter]. rewrite Pos2Z.inj_xO. change (2 ^ 1) with 2. lia.
  - rewrite Pos.iter_succ, Pos2Z.inj_xO, IH, Pos2Z.inj_succ, Z.pow_succ_r by lia. ring.
Qed.

Lemma shl_align_spec mx ex ex' :
  snd (shl_align mx ex ex') = Z.min ex ex' /\
  Z.pos (fst (shl_align mx ex ex')) = Z.pos mx * 2 ^ (ex - Z.min ex ex').
Proof.
  unfold shl_align. destruct (ex' - ex) as [| d | d] eqn:E; cbn [fst snd].
  - replace (Z.min ex ex') with ex by lia. rewrite Z.sub_diag. split; lia.
  - replace (Z.min ex ex') with ex by lia. rewrite Z.sub_diag. split; lia.
  - replace (Z.min ex ex') with ex' by lia.
    replace (ex - ex') with (Z.pos d) by lia.
    split; [reflexivity | apply pos_iter_xO].
Qed.

Lemma Zdigits2_shift m k :
  0 < m -> 0 <= k -> Zdigits2 (m * 2 ^ k) = Zdigits2 m + k.
Proof.
  intros Hm Hk.
  pose proof (Zdigits2_bounds m Hm) as [Hlo Hhi].
  pose proof (Zdigits2_pos m Hm) as Hd.
  assert (H2k : 0 < 2 ^ k) by (apply Z.pow_pos_nonneg; lia).
  apply Zdigits2_unique; [nia |].
  replace (Zdigits2 m + k - 1) with (Zdigits2 m - 1 + k) by lia.
  rewrite !Z.pow_add_r by lia. split; nia.
Qed.

Lemma binary_round_error m e :
  -1021 <= Zdigits2 (Z.pos m) + e <= 1023 ->
  exists m' e',
    binary_round prec emax false m e = S754_finite false m' e' /\
    ((1 - u52) * (inject_Z (Z.pos m) * qpow e) <= inject_Z (Z.pos m') * qpow e'
     <= (1 + u52) * (inject_Z (Z.pos m) * qpow e))%Q /\
    Zdigits2 (Z.pos m) + e <= Zdigits2 (Z.pos m') + e' <= Zdigits2 (Z.pos m) + e + 1 /\
    (Zdigits2 (Z.pos m) <= 53 ->
     (inject_Z (Z.pos m') * qpow e' == inject_Z (Z.pos m) * qpow e)%Q).
Proof.
  intros Hrange. unfold binary_round.
  change (Z.pos (digits2_pos m)) with (Zdigits2 (Z.pos m)).
  set (d := Zdigits2 (Z.pos m)) in *.
  rewrite fexp_normal by lia.
  destruct (shl_align_spec m e (d + e - 53)) as [Hez Hmz].
  destruct (shl_align m e (d + e - 53)) as [mz ez]. cbn [fst snd] in Hez, Hmz.
  pose proof (Zdigits2_bounds (Z.pos m) ltac:(lia)) as [Hlo Hhi]. fold d in Hlo, Hhi.
  pose proof (Zdigits2_pos (Z.pos m) ltac:(lia)) as Hdpos. fold d in Hdpos.
  assert (Hk : 0 <= e - ez) by lia.
  assert (Hdz : Zdigits2 (Z.pos mz) = d + (e - ez))
    by (rewrite Hmz, <- Hez; apply Zdigits2_shift; lia).
  assert (Hbig : 2 ^ 52 <= Z.pos mz).
  { pose proof (Zdigits2_bounds (Z.pos mz) ltac:(lia)) as [Hlo' _].
    rewrite Hdz in Hlo'.
    assert (2 ^ 52 <= 2 ^ (d + (e - ez) - 1)) by (apply Z.pow_le_mono_r; lia).
    lia. }
  assert (HV : (inject_Z (Z.pos mz) * qpow ez == inject_Z (Z.pos m) * qpow e)%Q).
  { rewrite Hmz, <- Hez, scale_mantissa by lia.
    replace (ez + (e - ez)) with e by lia. reflexivity. }
  destruct (binary_round_aux_error (Z.pos mz) ez loc_Exact
              (inject_Z (Z.pos mz) * qpow ez)%Q Hbig) as (m' & e' & Heq & Hb & Hmag & Hexact).
  - rewrite Hdz. lia.
  - split; [apply Qle_refl |].
    apply Qmult_lt_compat_r; [apply qpow_pos |]. lra.
  - exists m', e'. split; [exact Heq |]. rewrite HV in Hb, Hexact.
    split; [exact Hb |]. split; [rewrite Hdz in Hmag; lia |].
    intros Hd. apply Hexact; [reflexivity |]. rewrite Hdz. lia.
Qed.

(** ** Converting an integer *)

Lemma of_Z_exact w :
  0 < w < 2 ^ 53 ->
  exists m e,
    of_Z w = S754_finite false m e /\
    (inject_Z (Z.pos m) * qpow e == inject_Z w)%Q /\
    Zdigits2 (Z.pos m) + e = Zdigits2 w.
Proof.
  intros [Hw0 Hw]. destruct w as [| p | p]; try lia.
  unfold of_Z. cbn [binary_normalize].
  assert (Hd : Zdigits2 (Z.pos p) <= 53).
  { destruct (Z_le_gt_dec (Zdigits2 (Z.pos p)) 53) as [| Hgt]; [assumption |].
    pose proof (Zdigits2_bounds (Z.pos p) ltac:(lia)) as [Hlo _].
    assert (2 ^ 53 <= 2 ^ (Zdigits2 (Z.pos p) - 1)) by (apply Z.pow_le_mono_r; lia).
    lia. }
  pose proof (Zdigits2_pos (Z.pos p) ltac:(lia)) as Hdpos.
  destruct (binary_round_error p 0 ltac:(lia)) as (m & e & Heq & _ & Hmag & Hexact).
  exists m, e. split; [exact Heq |].
  specialize (Hexact Hd).
  split.
  - rewrite Hexact. change (qpow 0) with 1%Q. ring.
  - assert (Hv : (inject_Z (Z.pos m) * qpow e < qpow (Zdigits2 (Z.pos p)))%Q).
    { rewrite Hexact. destruct (val_mag_bounds p 0) as [_ Hhi].
      rewrite Z.add_0_r in Hhi. exact Hhi. }
    apply mag_le_of_lt in Hv. lia.
Qed.

(** ** One addition of positive doubles *)

Lemma add_finite_error mx ex my ey :
  -1021 <= Zdigits2 (Z.pos mx) + ex <= 1022 ->
  -1021 <= Zdigits2 (Z.pos my) + ey <= 1022 ->
  exists m' e',
    add (S754_finite false mx ex) (S754_finite false my ey) = S754_finite false m' e' /\
    ((1 - u52) * (inject_Z (Z.pos mx) * qpow ex + inject_Z (Z.pos my) * qpow ey)
     <= inject_Z (Z.pos m') * qpow e'
     <= (1 + u52) * (inject_Z (Z.pos mx) * qpow ex + inject_Z (Z.pos my) * qpow ey))%Q /\
    Z.max (Zdigits2 (Z.pos mx) + ex) (Zdigits2 (Z.pos my) + ey)
    <= Zdigits2 (Z.pos m') + e'.
Proof.
  intros Hx Hy. unfold add, SFadd. cbn [cond_Zopp].
  set (ez := Z.min ex ey).
  destruct (shl_align_spec mx ex ez) as [_ Ha].
  destruct (shl_align_spec my ey ez) as [_ Hb].
  replace (Z.min ex ez) with ez in Ha by lia.
  replace (Z.min ey ez) with ez in Hb by lia.
  set (a := fst (shl_align mx ex ez)) in *.
  set (b := fst (shl_align my ey ez)) in *.
  change (Z.pos a + Z.pos b) with (Z.pos (a + b)). cbn [binary_normalize].
  assert (HV : (inject_Z (Z.pos (a + b)) * qpow ez ==
                inject_Z (Z.pos mx) * qpow ex + inject_Z (Z.pos my) * qpow ey)%Q).
  { rewrite Pos2Z.inj_add, inject_Z_plus, Ha, Hb, Qmult_plus_distr_l.
    rewrite !scale_mantissa by lia.
    replace (ez + (ex - ez)) with ex by lia.
    replace (ez + (ey - ez)) with ey by lia. reflexivity. }
  destruct (val_mag_bounds mx ex) as [Hxlo Hxhi].
  destruct (val_mag_bounds my ey) as [Hylo Hyhi].
  pose proof (qpow_pos ex) as Hpx. pose proof (qpow_pos ey) as Hpy.
  assert (Hvx : (0 < inject_Z (Z.pos mx) * qpow ex)%Q)
    by (eapply Qlt_le_trans; [apply qpow_pos | exact Hxlo]).
  assert (Hvy : (0 < inject_Z (Z.pos my) * qpow ey)%Q)
    by (eapply Qlt_le_trans; [apply qpow_pos | exact Hylo]).
  set (M := Z.max (Zdigits2 (Z.pos mx) + ex) (Zdigits2 (Z.pos my) + ey)).
  assert (Hup : Zdigits2 (Z.pos (a + b)) + ez <= M + 1).
  { apply mag_le_of_lt. rewrite HV.
    assert (E : (qpow (M + 1) == qpow M + qpow M)%Q).
    { rewrite qpow_add. change (qpow 1) with 2%Q. ring. }
    rewrite E.
    pose proof (qpow_le (Zdigits2 (Z.pos mx) + ex) M ltac:(lia)).
    pose proof (qpow_le (Zdigits2 (Z.pos my) + ey) M ltac:(lia)).
    lra. }
  assert (Hlow : M <= Zdigits2 (Z.pos (a + b)) + ez).
  { unfold M. apply Z.max_lub; apply mag_ge_of_le; rewrite HV; lra. }
  destruct (binary_round_error (a + b) ez ltac:(lia)) as (m' & e' & Heq & Hb' & Hmag & _).
  exists m', e'. split; [exact Heq |]. rewrite HV in Hb'.
  split; [exact Hb' | lia].
Qed.

(** ** One division of positive doubles *)

Lemma div_finite_error mx ex my ey :
  -1021 <= Zdigits2 (Z.pos mx) + ex - (Zdigits2 (Z.pos my) + ey) <= 1021 ->
  exists m' e',
    div (S754_finite false mx ex) (S754_finite false my ey) = S754_finite false m' e' /\
    ((1 - u52) * (inject_Z (Z.pos mx) * qpow ex / (inject_Z (Z.pos my) * qpow ey))
     <= inject_Z (Z.pos m') * qpow e'
     <= (1 + u52) * (inject_Z (Z.pos mx) * qpow ex / (inject_Z (Z.pos my) * qpow ey)))%Q /\
    Zdigits2 (Z.pos mx) + ex - (Zdigits2 (Z.pos my) + ey) <= Zdigits2 (Z.pos m') + e'.
Proof.
  intros Hrange. unfold div, SFdiv, SFdiv_core_binary. cbn [xorb].
  set (d1 := Zdigits2 (Z.pos mx)) in *. set (d2 := Zdigits2 (Z.pos my)) in *.
  rewrite fexp_normal by lia.
  set (e' := Z.min (d1 + ex - (d2 + ey) - 53) (ex - ey)).
  set (s := ex - ey - e').
  assert (Hs : 0 <= s) by (unfold s, e'; lia).
  assert (Hs53 : 53 - d1 + d2 <= s) by (unfold s, e'; lia).
  set (m' := match s with
             | 0 => Z.pos mx
             | Z.pos _ => Z.shiftl (Z.pos mx) s
             | Z.neg _ => 0
             end).
  assert (Hm' : m' = Z.pos mx * 2 ^ s).
  { unfold m'. destruct s as [| p | p]; try lia.
    rewrite Z.shiftl_mul_pow2 by lia. reflexivity. }
  clearbody m'.
  pose proof (Zdigits2_bounds (Z.pos mx) ltac:(lia)) as [H1lo H1hi]. fold d1 in H1lo, H1hi.
  pose proof (Zdigits2_bounds (Z.pos my) ltac:(lia)) as [H2lo H2hi]. fold d2 in H2lo, H2hi.
  pose proof (Zdigits2_pos (Z.pos mx) ltac:(lia)) as Hd1. fold d1 in Hd1.
  pose proof (Zdigits2_pos (Z.pos my) ltac:(lia)) as Hd2. fold d2 in Hd2.
  set (k := d1 + s - d2 - 1).
  assert (Hk : 52 <= k) by (unfold k; lia).
  assert (H2s : 0 < 2 ^ s) by (apply Z.pow_pos_nonneg; lia).
  assert (Hp1 : 2 ^ (d1 - 1) * 2 ^ s = 2 ^ k * 2 ^ d2)
    by (rewrite <- !Z.pow_add_r by lia; f_equal; unfold k; lia).
  assert (Hp2 : 2 ^ d1 * 2 ^ s = 2 ^ (k + 2) * 2 ^ (d2 - 1))
    by (rewrite <- !Z.pow_add_r by lia; f_equal; unfold k; lia).
  assert (H2k : 0 < 2 ^ k) by (apply Z.pow_pos_nonneg; lia).
  assert (H2k2 : 0 < 2 ^ (k + 2)) by (apply Z.pow_pos_nonneg; lia).
  pose proof (Z.div_mod m' (Z.pos my) ltac:(lia)) as Hdm.
  pose proof (Z.mod_pos_bound m' (Z.pos my) ltac:(lia)) as Hmod.
  assert (Hqlo : 2 ^ k <= m' / Z.pos my).
  { apply Z.div_le_lower_bound; [lia |]. nia. }
  assert (Hqhi : m' / Z.pos my < 2 ^ (k + 2)).
  { apply Z.div_lt_upper_bound; [lia |]. nia. }
  unfold Z.div, Z.modulo in Hdm, Hmod, Hqlo, Hqhi.
  destruct (Z.div_eucl m' (Z.pos my)) as [q r]. cbn [fst snd] in *.
  assert (Hq52 : 2 ^ 52 <= q).
  { assert (2 ^ 52 <= 2 ^ k) by (apply Z.pow_le_mono_r; lia). lia. }
  assert (Hqpos : 0 < q) by (assert (0 < 2 ^ 52) by (apply Z.pow_pos_nonneg; lia); lia).
  pose proof (Zdigits2_bounds q Hqpos) as [Hdqlo Hdqhi].
  pose proof (Zdigits2_pos q Hqpos) as Hdqpos.
  assert (Hdq : k + 1 <= Zdigits2 q <= k + 2).
  { split.
    - assert (2 ^ k < 2 ^ Zdigits2 q) by lia.
      apply Z.pow_lt_mono_r_iff in H; lia.
    - assert (2 ^ (Zdigits2 q - 1) < 2 ^ (k + 2)) by lia.
      apply Z.pow_lt_mono_r_iff in H; lia. }
  set (T := (inject_Z (Z.pos mx) * qpow ex / (inject_Z (Z.pos my) * qpow ey))%Q).
  assert (HY : (0 < inject_Z (Z.pos my))%Q) by (apply (inject_Z_lt 0); lia).
  assert (HTY : (T * inject_Z (Z.pos my) == inject_Z m' * qpow e')%Q).
  { unfold T. rewrite Hm', scale_mantissa by exact Hs.
    replace (e' + s) with (ex - ey) by (unfold s; lia).
    replace ex with (ex - ey + ey) at 1 by lia. rewrite (qpow_add (ex - ey) ey).
    field. split.
    - pose proof (qpow_pos ey). lra.
    - lra. }
  assert (HT : (inject_Z q * qpow e' <= T < (inject_Z q + 1) * qpow e')%Q).
  { pose proof (qpow_pos e') as He'.
    split.
    - apply (Qmult_le_r _ _ (inject_Z (Z.pos my)) HY). rewrite HTY.
      rewrite <- Qmult_assoc, (Qmult_comm (qpow e')), Qmult_assoc.
      apply Qmult_le_compat_r; [| lra].
      rewrite <- inject_Z_mult. apply inject_Z_le. lia.
    - apply (Qmult_lt_r _ _ (inject_Z (Z.pos my)) HY). rewrite HTY.
      rewrite <- Qmult_assoc, (Qmult_comm (qpow e')), Qmult_assoc.
      apply Qmult_lt_compat_r; [exact He' |].
      change 1%Q with (inject_Z 1). rewrite <- inject_Z_plus, <- inject_Z_mult.
      apply inject_Z_lt. lia. }
  assert (Hse : s + e' = ex - ey) by (unfold s; lia).
  destruct (binary_round_aux_error q e' (new_location (Z.pos my) r) T Hq52)
    as (mr & er & Heq & Hb & Hmag & _).
  - unfold k in Hdq. lia.
  - exact HT.
  - exists mr, er. split; [exact Heq |]. split; [exact Hb |].
    unfold k in Hdq. lia.
Qed.

(** ** From [val] to [to_Q] *)

Lemma qpow_neg p : (qpow (Z.neg p) == / inject_Z (Z.pos (2 ^ p)))%Q.
Proof.
  change (Z.neg p) with (- Z.pos p). unfold qpow. rewrite Qpower_opp.
  apply Qinv_comp. rewrite Pos2Z.inj_pow.
  rewrite Zpower_Qpower by lia. reflexivity.
Qed.

Lemma to_Q_val x :
  is_finite x = true -> exists q, to_Q x = Some q /\ (q == val x)%Q.
Proof.
  destruct x as [s | s | | s m e]; try discriminate; intros _.
  - exists 0%Q. split; reflexivity.
  - cbn [to_Q val]. eexists. split; [reflexivity |].
    rewrite Qred_correct.
    assert (E : (match e with
                 | Z.neg p => Z.pos m # 2 ^ p
                 | _ => inject_Z (Z.pos m * 2 ^ e)
                 end == inject_Z (Z.pos m) * qpow e)%Q).
    { destruct e as [| p | p].
      - change (qpow 0) with 1%Q. rewrite Z.pow_0_r, Z.mul_1_r. ring.
      - rewrite inject_Z_mult, qpow_Z by lia. reflexivity.
      - rewrite qpow_neg. apply Qmake_Qdiv. }
    destruct s; rewrite E; reflexivity.
Qed.

(** ** Valid readings and their pre-divided images *)

Lemma sample_shape k :
  0 <= k < 8192 ->
  (k = 0 /\ mul (of_Z k) c0_25 = S754_zero false) \/
  (exists m e, mul (of_Z k) c0_25 = S754_finite false m e /\
               -1 <= Zdigits2 (Z.pos m) + e <= 11 /\
               (inject_Z (Z.pos m) * qpow e == k # 4)%Q /\ 0 < k).
Proof.
  intros Hk.
  assert (H : sample_shape_ok k = true).
  { apply (range_forallb sample_shape_ok 8192); [| exact Hk]. vm_compute. reflexivity. }
  unfold sample_shape_ok in H.
  destruct (mul (of_Z k) c0_25) as [[] | | | [] m e]; try discriminate.
  - left. apply Z.eqb_eq in H. split; [exact H | reflexivity].
  - right. exists m, e.
    apply andb_prop in H. destruct H as [H H4].
    apply andb_prop in H. destruct H as [H H3].
    apply andb_prop in H. destruct H as [H1 H2].
    apply Z.ltb_lt in H1. apply Z.leb_le in H2, H3. apply Qeq_bool_iff in H4.
    repeat split; try lia; assumption.
Qed.

Lemma val_nonneg x : nonneg_double x -> (0 <= val x)%Q.
Proof.
  intros [-> | (m & e & -> & _)]; cbn [val]; [apply Qle_refl |].
  destruct (val_mag_bounds m e) as [Hlo _].
  pose proof (qpow_pos (Zdigits2 (Z.pos m) + e - 1)). lra.
Qed.

(** Pre-division: the stored element is within relative error 2^-52 of
    the reading divided by the window size. *)
Lemma predivide_error k w :
  0 <= k < 8192 -> 1 <= w < 4294967296 ->
  let x := div (mul (of_Z k) c0_25) (of_Z w) in
  let t := ((k # 4) / inject_Z w)%Q in
  nonneg_double x /\ ((1 - u52) * t <= val x <= (1 + u52) * t)%Q.
Proof.
  intros Hk Hw x t.
  destruct (of_Z_exact w ltac:(lia)) as (mw & ew & Hofz & Hvw & Hmagw).
  assert (Hdw : 1 <= Zdigits2 w <= 32).
  { pose proof (Zdigits2_pos w ltac:(lia)).
    split; [lia |].
    pose proof (Zdigits2_bounds w ltac:(lia)) as [Hlo _].
    destruct (Z_le_gt_dec (Zdigits2 w) 32) as [| Hgt]; [assumption |].
    assert (2 ^ 32 <= 2 ^ (Zdigits2 w - 1)) by (apply Z.pow_le_mono_r; lia).
    lia. }
  subst x. rewrite Hofz.
  destruct (sample_shape k Hk) as [[-> ->] | (m & e & -> & Hmag & Hv & Hpos)].
  - split; [left; reflexivity |].
    cbn [div SFdiv val xorb]. subst t.
    assert (E : ((0 # 4) / inject_Z w == 0)%Q) by reflexivity.
    rewrite E. split; rewrite Qmult_0_r; apply Qle_refl.
  - destruct (div_finite_error m e mw ew ltac:(lia)) as (m' & e' & Heq & Hb & Hmag').
    rewrite Heq. split.
    + right. exists m', e'. split; [reflexivity | lia].
    + cbn [val]. subst t. rewrite <- Hv, <- Hvw. exact Hb.
Qed.

(** ** Accumulating the sum *)

Lemma val_le_mag m e :
  (inject_Z (Z.pos m) * qpow e <= 4096)%Q -> Zdigits2 (Z.pos m) + e <= 13.
Proof.
  intros H. apply (val_lt_mag m e 12).
  assert (E : (qpow 12 == 4096)%Q) by reflexivity.
  rewrite E. exact H.
Qed.

Lemma accumulate_step (acc x : double) (Sigma t E : Q) :
  nonneg_double acc -> nonneg_double x ->
  (Sigma - E <= val acc <= Sigma + E)%Q ->
  ((1 - u52) * t <= val x <= (1 + u52) * t)%Q ->
  (0 <= Sigma)%Q -> (0 <= t)%Q -> (Sigma + t <= 2048)%Q -> (0 <= E <= 1)%Q ->
  nonneg_double (add acc x) /\
  (Sigma + t - (E + e39) <= val (add acc x) <= Sigma + t + (E + e39))%Q.
Proof.
  intros Hacc Hx Hvacc Hvx HSig Ht Hsum HE.
  pose proof (val_nonneg acc Hacc) as Haccnn. pose proof (val_nonneg x Hx) as Hxnn.
  unfold u52, e39 in *.
  destruct Hacc as [-> | (ms & es & -> & Hmagacc)], Hx as [-> | (mx & ex & -> & Hmagx)].
  - split; [left; reflexivity |]. cbn [val] in *. change (val (add _ _)) with 0%Q. lra.
  - split; [right; exists mx, ex; split; [reflexivity | exact Hmagx] |].
    change (add (S754_zero false) (S754_finite false mx ex)) with (S754_finite false mx ex).
    cbn [val] in *. lra.
  - split; [right; exists ms, es; split; [reflexivity | exact Hmagacc] |].
    change (add (S754_finite false ms es) (S754_zero false)) with (S754_finite false ms es).
    cbn [val] in *. lra.
  - cbn [val] in *.
    assert (Hmacc : Zdigits2 (Z.pos ms) + es <= 13) by (apply val_le_mag; lra).
    assert (Hmx : Zdigits2 (Z.pos mx) + ex <= 13) by (apply val_le_mag; lra).
    destruct (add_finite_error ms es mx ex ltac:(lia) ltac:(lia))
      as (m' & e' & Heq & Hb & Hmag).
    rewrite Heq. unfold u52 in Hb. cbn [val].
    split; [right; exists m', e'; split; [reflexivity | lia] |].
    lra.
Qed.

Lemma sumQ_nonneg xs ts : Forall2 stored_as xs ts -> (0 <= sumQ ts)%Q.
Proof.
  induction 1 as [| x t xs ts (_ & Ht & _) _ IH]; cbn [sumQ]; [apply Qle_refl | lra].
Qed.

Lemma accumulate_all xs ts :
  Forall2 stored_as xs ts ->
  forall (acc : double) (Sigma E : Q),
    nonneg_double acc ->
    (Sigma - E <= val acc <= Sigma + E)%Q ->
    (0 <= Sigma)%Q -> (Sigma + sumQ ts <= 2048)%Q ->
    (0 <= E)%Q -> (E + inject_Z (Z.of_nat (length ts)) * e39 <= 1)%Q ->
    nonneg_double (fold_left add xs acc) /\
    (Sigma + sumQ ts - (E + inject_Z (Z.of_nat (length ts)) * e39)
     <= val (fold_left add xs acc)
     <= Sigma + sumQ ts + (E + inject_Z (Z.of_nat (length ts)) * e39))%Q.
Proof.
  induction 1 as [| x t xs ts (Hx & Ht & Hvx) Hrest IH];
    intros acc Sigma E Hacc Hvacc HSig Hsum HE Hbudget.
  - cbn [fold_left sumQ length Z.of_nat] in *. split; [exact Hacc |].
    change (inject_Z 0) with 0%Q. lra.
  - pose proof (sumQ_nonneg xs ts Hrest) as Hnn.
    cbn [fold_left sumQ length] in *.
    rewrite Nat2Z.inj_succ in Hbudget |- *. unfold Z.succ in Hbudget |- *.
    rewrite inject_Z_plus in Hbudget |- *. change (inject_Z 1) with 1%Q in Hbudget |- *.
    assert (Hn : (0 <= inject_Z (Z.of_nat (length ts)))%Q)
      by (apply (inject_Z_le 0); lia).
    assert (He39 : (0 < e39)%Q) by reflexivity.
    assert (Hne : (0 <= inject_Z (Z.of_nat (length ts)) * e39)%Q)
      by (apply Qmult_le_0_compat; lra).
    destruct (accumulate_step acc x Sigma t E Hacc Hx Hvacc Hvx HSig Ht ltac:(lra) ltac:(lra))
      as [Hacc' Hvacc'].
    destruct (IH (add acc x) (Sigma + t)%Q (E + e39)%Q Hacc' Hvacc'
                 ltac:(lra) ltac:(lra) ltac:(lra) ltac:(lra)) as [Hgood Hv].
    split; [exact Hgood | lra].
Qed.

(** ** The mean of a full window of valid readings *)

Lemma valid_reading_val s :
  valid_reading s -> (0 <= val s <= 2048)%Q /\
  exists k, 0 <= k < 8192 /\ s = mul (of_Z k) c0_25 /\ (val s == k # 4)%Q.
Proof.
  intros (k & Hk & ->).
  assert (Hv : (val (mul (of_Z k) c0_25) == k # 4)%Q).
  { destruct (sample_shape k Hk) as [[-> ->] | (m & e & -> & _ & Hv & _)];
      [reflexivity | exact Hv]. }
  split; [| exists k; repeat split; try lia; exact Hv].
  rewrite Hv. split.
  - unfold Qle. cbn. lia.
  - unfold Qle. cbn. lia.
Qed.

Lemma stored_elements w ss :
  1 <= w < 4294967296 -> Forall valid_reading ss ->
  Forall2 stored_as (map (fun s => div s (of_Z w)) ss)
          (map (fun s => (val s / inject_Z w)%Q) ss).
Proof.
  intros Hw Hss. induction Hss as [| s ss Hs _ IH]; cbn [map]; constructor; [| exact IH].
  destruct (valid_reading_val s Hs) as ([Hs0 _] & k & Hk & -> & Hv).
  destruct (predivide_error k w Hk Hw) as [Hnn Hb].
  assert (HW : (0 < inject_Z w)%Q) by (apply (inject_Z_lt 0); lia).
  split; [exact Hnn |]. split.
  - apply Qle_shift_div_l; [exact HW |]. rewrite Qmult_0_l. exact Hs0.
  - rewrite Hv. exact Hb.
Qed.

Lemma sumQ_scaled (w : Q) ss :
  (sumQ (map (fun s => val s / w) ss) == sum_val ss / w)%Q.
Proof.
  unfold sum_val. induction ss as [| s ss IH]; cbn [map sumQ].
  - unfold Qdiv. rewrite Qmult_0_l. reflexivity.
  - rewrite IH. unfold Qdiv. ring.
Qed.

Lemma sum_val_bound ss :
  Forall valid_reading ss ->
  (0 <= sum_val ss <= 2048 * inject_Z (Z.of_nat (length ss)))%Q.
Proof.
  unfold sum_val. induction 1 as [| s ss Hs _ IH]; cbn [map sumQ length].
  - change (inject_Z (Z.of_nat 0)) with 0%Q. lra.
  - destruct (valid_reading_val s Hs) as [Hv _].
    rewrite Nat2Z.inj_succ. unfold Z.succ. rewrite inject_Z_plus.
    change (inject_Z 1) with 1%Q. lra.
Qed.

Lemma window_mean_tolerance w ss :
  1 <= w < 4294967296 ->
  Forall valid_reading ss ->
  Z.of_nat (length ss) = w ->
  exists q,
    to_Q (fold_left add (map (fun s => div s (of_Z w)) ss) zero) = Some q /\
    (Qabs (q - sum_val ss / inject_Z w) <= inject_Z w * e39)%Q.
Proof.
  intros Hw Hss Hlen.
  assert (HW : (0 < inject_Z w)%Q) by (apply (inject_Z_lt 0); lia).
  pose proof (stored_elements w ss Hw Hss) as Hst.
  pose proof (sum_val_bound ss Hss) as [Hs0 Hs1]. rewrite Hlen in Hs1.
  assert (Hmean : (0 <= sum_val ss / inject_Z w <= 2048)%Q).
  { split.
    - apply Qle_shift_div_l; [exact HW | lra].
    - apply Qle_shift_div_r; [exact HW | exact Hs1]. }
  assert (Hbudget : (inject_Z w * e39 <= 1)%Q).
  { assert (Hle : (inject_Z w <= 4294967296)%Q) by (apply (inject_Z_le w 4294967296); lia).
    unfold e39. lra. }
  destruct (accumulate_all _ _ Hst zero 0%Q 0%Q) as [Hgood Hv].
  - left. reflexivity.
  - cbn [val zero]. lra.
  - apply Qle_refl.
  - rewrite sumQ_scaled. lra.
  - apply Qle_refl.
  - rewrite length_map, Hlen. lra.
  - rewrite length_map, Hlen, sumQ_scaled in Hv.
    set (mean := fold_left add (map (fun s => div s (of_Z w)) ss) zero) in *.
    destruct (to_Q_val mean) as (q & Hq & Hqv).
    { destruct Hgood as [-> | (m & e & -> & _)]; reflexivity. }
    exists q. split; [exact Hq |].
    apply Qabs_Qle_condition. rewrite Hqv. lra.
Qed.

(** * The window after a run of updates *)

Lemma Forall_lastn {A} (P : A -> Prop) n (l : list A) :
  Forall P l -> Forall P (lastn n l).
Proof.
  intros H. unfold lastn.
  rewrite <- (firstn_skipn (length l - n) l) in H.
  apply Forall_app in H. apply H.
Qed.

(** A read with the open-thermocouple flag clear is a valid reading. *)
Lemma readValue_valid this b :
  Z.testbit (clocked_word b) 2 = false -> valid_reading (fst (readValue this b)).
Proof.
  intros Hflag. rewrite readValue_value, Hflag.
  exists (Z.shiftr (clocked_word b) 3). split; [| reflexivity].
  pose proof (msb_first_range 16 (SO_levels b)) as Hr. fold (clocked_word b) in Hr.
  change (2 ^ Z.of_nat 16) with 65536 in Hr.
  rewrite Z.shiftr_div_pow2 by lia. change (2 ^ 3) with 8.
  split; [apply Z.div_pos; lia | apply Z.div_lt_upper_bound; lia].
Qed.

(** C2: after a run of [n >= w] updates that all read, started with at
    most [w] queued elements, the queue holds exactly the last [w]
    readings, each divided by [w] when it was inserted, and the cached
    mean is the sum of the queued elements accumulated from [0] in queue
    order, with no division in [recalculate].  When the reads are valid
    (flag clear) that sum is a finite double within [w * 2^-39] of the
    exact mean [(s_{n-w+1} + ... + s_n) / w]. *)
Theorem moving_average_window lastUpdate this boards :
  let w := readingsNumber this in
  let samples := map (fun b => fst (readValue this b)) boards in
  1 <= w ->
  Z.of_nat (length (dataPoints this)) <= w ->
  all_fire lastUpdate (delayTime this) boards ->
  w <= Z.of_nat (length boards) ->
  let this' := snd (run lastUpdate this boards) in
  readingsNumber this' = w /\
  length (dataPoints this') = Z.to_nat w /\
  dataPoints this' = map (fun s => div s (of_Z w)) (lastn (Z.to_nat w) samples) /\
  meanTempC this' = fold_left add (dataPoints this') zero /\
  (w < 4294967296 ->
   Forall (fun b => Z.testbit (clocked_word b) 2 = false) boards ->
   exists q,
     to_Q (meanTempC this') = Some q /\
     (Qabs (q - sum_val (lastn (Z.to_nat w) samples) / inject_Z w)
      <= inject_Z w * e39)%Q).
Proof.
  intros w samples Hw Hlen Hfire Hn this'.
  assert (Hok : window_ok this) by (split; fold w; lia).
  assert (Hrun : this' = fold_left store samples this)
    by (apply run_all_fire, Hfire).
  assert (Hsamples : length samples = length boards) by apply length_map.
  assert (Hq : dataPoints this' =
               map (fun s => div s (of_Z w)) (lastn (Z.to_nat w) samples)).
  { rewrite Hrun, fold_store_lastn by exact Hok. fold w.
    rewrite lastn_app_long by (rewrite length_map; lia).
    apply lastn_map. }
  assert (Hsize : length (dataPoints this') = Z.to_nat w).
  { rewrite Hq, length_map, length_lastn. lia. }
  assert (Hmean : meanTempC this' = fold_left add (dataPoints this') zero).
  { rewrite Hrun, fold_store_mean.
    - rewrite <- Hrun, Hsize. fold w.
      destruct (Z.eqb_spec (Z.of_nat (Z.to_nat w)) w); [reflexivity | lia].
    - intros Hnil. rewrite Hnil in Hsamples. cbn [length] in Hsamples. lia. }
  split; [| split; [exact Hsize | split; [exact Hq | split; [exact Hmean |]]]].
  - rewrite Hrun. apply fold_store_config.
  - intros Hw32 Hvalid. rewrite Hmean, Hq.
    apply window_mean_tolerance.
    + lia.
    + apply Forall_lastn. unfold samples.
      clear - Hvalid. induction Hvalid as [| b boards Hb _ IH]; cbn [map]; constructor.
      * apply readValue_valid, Hb.
      * exact IH.
    + rewrite length_lastn. lia.
Qed.

(** Three reads, 25, 26 and 27 degrees, into a window of two: the mean of
    the last two is within 2^-38 of 26.5 (it is 26.5). *)
Lemma moving_average_window_witness :
  let this' := snd (run 0 device_w2 boards_25_26_27) in
  let samples := map (fun b => fst (readValue device_w2 b)) boards_25_26_27 in
  readingsNumber this' = 2 /\
  length (dataPoints this') = 2%nat /\
  dataPoints this' = map (fun s => div s (of_Z 2)) (lastn 2 samples) /\
  meanTempC this' = fold_left add (dataPoints this') zero /\
  exists q,
    to_Q (meanTempC this') = Some q /\
    (Qabs (q - sum_val (lastn 2 samples) / inject_Z 2) <= inject_Z 2 * e39)%Q.
Proof.
  destruct (moving_average_window 0 device_w2 boards_25_26_27)
    as (H1 & H2 & H3 & H4 & H5).
  - cbn. lia.
  - cbn. lia.
  - cbn. repeat split; reflexivity.
  - cbn. lia.
  - repeat split; try assumption.
    apply H5; [cbn; lia | repeat constructor].
Defined.

Example window_25_26_27 :
  dataPoints (snd (run 0 device_w2 boards_25_26_27)) = [of_Z 13; div (of_Z 27) (of_Z 2)] /\
  to_Q (meanTempC (snd (run 0 device_w2 boards_25_26_27))) = Some (53 # 2)%Q.
Proof. split; vm_compute; reflexivity. Qed.

(** ** Where the cached mean and the queue part ways *)

(** An [update] that reads leaves the cached mean NaN whenever the queue
    it leaves behind is not full. *)
Lemma update_warming_up lastUpdate this b :
  Int.to_unsigned (clock b - lastUpdate) > delayTime this ->
  let this' := snd (fst (update lastUpdate this b)) in
  Z.of_nat (length (dataPoints this')) <> readingsNumber this' ->
  is_nan (readCelsius this') = true /\
  is_nan (readKelvin this') = true /\
  is_nan (readFahrenheit this') = true.
Proof.
  intros Hgate this' Hlen.
  rewrite readKelvin_nan, readFahrenheit_nan.
  unfold readCelsius. subst this'. revert Hlen.
  rewrite update_fires_sample by exact Hgate. cbn [snd].
  destruct (store_config this (sample_of b)) as (-> & _).
  rewrite store_meanTempC.
  destruct (Z.eqb_spec (Z.of_nat (length (dataPoints (store this (sample_of b)))))
                       (readingsNumber this)); [contradiction | repeat split].
Qed.

(** [setReadingsNumber] empties the queue and keeps the cached mean. *)
Lemma setReadingsNumber_effect this n :
  dataPoints (setReadingsNumber this n) = [] /\
  meanTempC (setReadingsNumber this n) = meanTempC this /\
  delayTime (setReadingsNumber this n) = delayTime this.
Proof. repeat split. Qed.

(** A read with the open-thermocouple flag set goes through [store] like
    any other: the NaN is queued. *)
Lemma update_open_thermocouple lastUpdate this b :
  Int.to_unsigned (clock b - lastUpdate) > delayTime this ->
  Z.testbit (clocked_word b) 2 = true ->
  dataPoints (snd (fst (update lastUpdate this b))) =
  push_back
    (if Z.of_nat (length (dataPoints this)) >=? readingsNumber this
     then pop_front (dataPoints this) else dataPoints this)
    NAN.
Proof.
  intros Hgate Hflag. rewrite update_fires_sample by exact Hgate. cbn [snd].
  rewrite store_dataPoints. unfold sample_of. rewrite Hflag. reflexivity.
Qed.

(** C1 (the code departs from the claim): in the sketch that holds one
    reading of 25 degrees, an [update] whose read has the
    open-thermocouple flag set replaces the queue by a single NaN and
    the cached mean by NaN. *)
Theorem open_thermocouple_read_is_stored :
  let this := snd sketch_25C in
  let this' := snd (fst (update (fst sketch_25C) this board_open)) in
  Z.testbit (clocked_word board_open) 2 = true /\
  fst (readValue this board_open) = NAN /\
  dataPoints this = [of_Z 25] /\ meanTempC this = of_Z 25 /\
  dataPoints this' = [NAN] /\ meanTempC this' = NAN.
Proof. vm_compute. repeat split. Qed.

(** C3 (the code departs from the claim): a device constructed in
    zero-initialised storage has an empty queue and a window of 5, yet
    its accessors return 0, 273.15 and 32, none of them NaN. *)
Theorem fresh_device_reports_storage :
  let this := fst (construct_default zero 13 10 12 board_reset) in
  readingsNumber this = 5 /\ dataPoints this = [] /\
  readCelsius this = zero /\
  readKelvin this = c273_15 /\
  readFahrenheit this = c32.
Proof. vm_compute. repeat split. Qed.

(** C7 (the code departs from the claim): after one reading of 25
    degrees with a window of 1, [setReadingsNumber 3] empties the queue
    but the accessors keep returning 25, 298.15 and 77. *)
Theorem stale_mean_after_setReadingsNumber :
  let this := setReadingsNumber (snd sketch_25C) 3 in
  readingsNumber this = 3 /\ dataPoints this = [] /\
  readCelsius this = of_Z 25 /\
  readKelvin this = div (of_Z 29815) (of_Z 100) /\
  readFahrenheit this = of_Z 77.
Proof. vm_compute. repeat split. Qed.

(** ** A window of one reading *)

Lemma double_eqb_eq x y : double_eqb x y = true -> x = y.
Proof.
  destruct x as [a | a | | a m e], y as [a' | a' | | a' m' e'];
    cbn; try discriminate; try reflexivity.
  - intros H. apply Bool.eqb_prop in H. congruence.
  - intros H. apply Bool.eqb_prop in H. congruence.
  - intros H. apply andb_prop in H. destruct H as [H He].
    apply andb_prop in H. destruct H as [Ha Hm].
    apply Bool.eqb_prop in Ha. apply Pos.eqb_eq in Hm. apply Z.eqb_eq in He.
    congruence.
Qed.

(** Dividing a valid reading by 1 and adding it to [0] returns it. *)
Lemma quarter_steps_window_one k :
  0 <= k < 8192 ->
  add zero (div (mul (of_Z k) c0_25) (of_Z 1)) = mul (of_Z k) c0_25.
Proof.
  intros Hk. apply double_eqb_eq.
  apply (range_forallb
           (fun k => double_eqb (add zero (div (mul (of_Z k) c0_25) (of_Z 1)))
                                (mul (of_Z k) c0_25))
           8192); [| exact Hk].
  vm_compute. reflexivity.
Qed.

(** With a window of 1 every valid read becomes the reported mean at
    once, bit for bit. *)
Lemma window_one_passthrough lastUpdate this b :
  readingsNumber this = 1 ->
  Z.of_nat (length (dataPoints this)) <= 1 ->
  Int.to_unsigned (clock b - lastUpdate) > delayTime this ->
  Z.testbit (clocked_word b) 2 = false ->
  readCelsius (snd (fst (update lastUpdate this b))) = fst (readValue this b).
Proof.
  intros Hw Hlen Hgate Hflag.
  rewrite readValue_sample, update_fires_sample by exact Hgate. cbn [snd].
  unfold readCelsius. rewrite store_meanTempC, store_dataPoints, Hw.
  assert (Hq : (if Z.of_nat (length (dataPoints this)) >=? 1
                then pop_front (dataPoints this) else dataPoints this) = []).
  { destruct (dataPoints this) as [| x [| y q]]; cbn in *; try reflexivity. lia. }
  rewrite Hq. cbn [push_back app length Z.of_nat Pos.of_succ_nat Z.eqb Pos.eqb fold_left].
  unfold sample_of. rewrite Hflag.
  apply quarter_steps_window_one.
  pose proof (msb_first_range 16 (SO_levels b)) as Hr. fold (clocked_word b) in Hr.
  change (2 ^ Z.of_nat 16) with 65536 in Hr.
  rewrite Z.shiftr_div_pow2 by lia. change (2 ^ 3) with 8.
  split; [apply Z.div_pos; lia | apply Z.div_lt_upper_bound; lia].
Qed.

(** * Further properties of the driver *)

(** ** The protocol layer on the board *)

Lemma sck_pulses_succ this n :
  sck_pulses this n ++ [EvWrite (SCK_pin this) HIGH; EvWrite (SCK_pin this) LOW]
  = sck_pulses this (S n).
Proof.
  unfold sck_pulses. induction n as [| n IH]; [reflexivity |].
  cbn [repeat concat] in *. rewrite <- app_assoc, IH. reflexivity.
Qed.

Lemma to_unsigned_add c k j :
  Int.to_unsigned (Int.to_unsigned (c + k) + j) = Int.to_unsigned (c + (k + j)).
Proof.
  unfold Int.to_unsigned, Int.modulus.
  rewrite Zplus_mod_idemp_l. f_equal. lia.
Qed.

(** What [spiread_loop] does to the board. *)
Lemma spiread_loop_board this n value b :
  snd (spiread_loop this n value b) =
  mkBoard (match n with O => clock b | _ => Int.to_unsigned (clock b + 2 * Z.of_nat n) end)
          (skipn n (SO_levels b))
          (sck_pulses this n ++ trace b).
Proof.
  revert value b. induction n as [| i IH]; intros value b.
  - destruct b. reflexivity.
  - cbn [spiread_loop]. unfold bind, digitalWrite, delay, digitalRead.
    cbn [fst snd clock SO_levels trace]. rewrite IH. cbn [clock SO_levels trace].
    f_equal.
    + rewrite to_unsigned_add.
      destruct i as [| i]; [reflexivity |].
      rewrite to_unsigned_add. f_equal. lia.
    + destruct (SO_levels b); [destruct i |]; reflexivity.
    + rewrite <- sck_pulses_succ, <- app_assoc. reflexivity.
Qed.

Lemma spiread_board this b :
  snd (spiread this b) =
  mkBoard (Int.to_unsigned (clock b + 16)) (skipn 8 (SO_levels b))
          (sck_pulses this 8 ++ trace b).
Proof. unfold spiread. rewrite spiread_loop_board. reflexivity. Qed.

Lemma readValue_board this b :
  snd (readValue this b) =
  mkBoard (Int.to_unsigned (clock b + 33)) (skipn 16 (SO_levels b))
          (EvWrite (CS_pin this) HIGH
             :: sck_pulses this 16 ++ EvWrite (CS_pin this) LOW :: trace b).
Proof.
  unfold readValue, bind. unfold digitalWrite at 1, delay at 1.
  cbn [clock SO_levels trace].
  set (b1 := mkBoard _ (SO_levels b) _).
  pose proof (spiread_board this b1) as H1.
  destruct (spiread this b1) as [hi b2]. cbn [snd] in H1.
  pose proof (spiread_board this b2) as H2.
  destruct (spiread this b2) as [lo b3]. cbn [snd] in H2.
  subst b3 b2 b1. cbn [clock SO_levels trace].
  unfold digitalWrite, ret.
  destruct (negb _); cbn [snd clock SO_levels trace]; f_equal;
    try (rewrite !to_unsigned_add; reflexivity);
    try (rewrite skipn_skipn; reflexivity);
    try (f_equal; unfold sck_pulses; rewrite app_assoc, <- concat_app, <- repeat_app;
         reflexivity).
Qed.

(** X1: [spiread] returns a byte, and it inverts the serialisation of a
    byte: when the line presents the eight bits of [v], most significant
    first, it returns [v] and leaves the rest of the line unread. *)
Theorem spiread_round_trip this b :
  0 <= fst (spiread this b) < 256 /\
  forall v rest,
    0 <= v < 256 ->
    SO_levels b = levels_of 8 v ++ rest ->
    fst (spiread this b) = v /\ SO_levels (snd (spiread this b)) = rest.
Proof.
  destruct (spiread_value this b) as [Hv Hs]. split.
  - rewrite Hv. apply (msb_first_range 8).
  - intros v rest Hrange Hlv. rewrite Hv, Hs, Hlv. split.
    + rewrite msb_first_levels_of. apply Z.mod_small.
      change (2 ^ Z.of_nat 8) with 256. exact Hrange.
    + reflexivity.
Qed.

Lemma spiread_round_trip_witness :
  fst (spiread device_w1 (mkBoard 0 (levels_of 8 165 ++ [true; false]) [])) = 165 /\
  SO_levels (snd (spiread device_w1 (mkBoard 0 (levels_of 8 165 ++ [true; false]) [])))
  = [true; false].
Proof.
  apply (proj2 (spiread_round_trip device_w1
                  (mkBoard 0 (levels_of 8 165 ++ [true; false]) [])) 165 [true; false]).
  - lia.
  - reflexivity.
Defined.

(** X2: one [readValue] transaction takes 33 ms on the millisecond
    counter (modulo 2^32), consumes 16 levels of the line, and drives the
    pins as: chip select LOW, sixteen clock pulses LOW then HIGH, chip
    select HIGH. *)
Theorem readValue_transaction this b :
  clock (snd (readValue this b)) = Int.to_unsigned (clock b + 33) /\
  SO_levels (snd (readValue this b)) = skipn 16 (SO_levels b) /\
  trace (snd (readValue this b)) =
    EvWrite (CS_pin this) HIGH
      :: sck_pulses this 16 ++ EvWrite (CS_pin this) LOW :: trace b.
Proof. rewrite readValue_board. repeat split. Qed.

(** X3: [readValue] returns NaN or a finite double between 0 and
    2047.75; it never returns an infinity or a negative value. *)
Theorem readValue_range this b :
  fst (readValue this b) = NAN \/
  exists q, to_Q (fst (readValue this b)) = Some q /\ (0 <= q <= 8191 # 4)%Q.
Proof.
  rewrite readValue_value.
  destruct (Z.testbit (clocked_word b) 2); [left; reflexivity | right].
  pose proof (msb_first_range 16 (SO_levels b)) as Hr. fold (clocked_word b) in Hr.
  change (2 ^ Z.of_nat 16) with 65536 in Hr.
  set (k := Z.shiftr (clocked_word b) 3).
  assert (Hk : 0 <= k < 8192).
  { unfold k. rewrite Z.shiftr_div_pow2 by lia. change (2 ^ 3) with 8.
    split; [apply Z.div_pos; lia | apply Z.div_lt_upper_bound; lia]. }
  exists (Qred (k # 4)). split; [apply quarter_steps_exact, Hk |].
  clearbody k. rewrite Qred_correct. split; unfold Qle; cbn [Qnum Qden]; lia.
Qed.

(** X4: the constructor configures the three pins and ends by writing
    HIGH to the chip select, without touching the clock or the line; and
    [update] keeps the chip select released: if the latest pin event was
    the release, it still is after the call. *)
Theorem chip_select_released :
  (forall storage SCK CS SO n t b,
      let r := construct storage SCK CS SO n t b in
      trace (snd r) =
        [EvWrite CS HIGH; EvPinMode SO INPUT; EvPinMode CS OUTPUT; EvPinMode SCK OUTPUT]
        ++ trace b /\
      clock (snd r) = clock b /\ SO_levels (snd r) = SO_levels b /\
      cs_released (fst r) (snd r)) /\
  (forall lastUpdate this b,
      cs_released this b -> cs_released this (snd (update lastUpdate this b))).
Proof.
  split.
  - intros storage SCK CS SO n t b r. subst r. cbn.
    repeat split. eexists. reflexivity.
  - intros lu this b Hb.
    destruct (Z_gt_le_dec (Int.to_unsigned (clock b - lu)) (delayTime this)) as [Hgt | Hle].
    + rewrite update_fires_board by exact Hgt. rewrite readValue_board.
      eexists. reflexivity.
    + rewrite update_gated by exact Hle. exact Hb.
Qed.

Lemma chip_select_released_witness :
  let b := snd (construct zero 13 10 12 1 250 board_reset) in
  cs_released device_w1 b /\
  cs_released device_w1 (snd (update 0 device_w1 b)).
Proof.
  assert (H : cs_released device_w1 (snd (construct zero 13 10 12 1 250 board_reset)))
    by (eexists; reflexivity).
  split; [exact H | apply (proj2 chip_select_released 0 device_w1 _ H)].
Defined.

(** ** The scheduler *)

(** X5: with the initial last-update time 0, a call of [update] reads
    exactly when [millis()] exceeds the delay (at the delay itself it does
    not); and with a delay of 2^32 - 1 or more no call ever reads. *)
Theorem first_update_and_maximal_delay this b :
  (0 <= clock b < 4294967296 ->
   (performs_read 0 this b <-> clock b > delayTime this)) /\
  (4294967295 <= delayTime this ->
   forall lastUpdate, ~ performs_read lastUpdate this b).
Proof.
  split.
  - intros Hc. rewrite performs_read_iff, Z.sub_0_r.
    unfold Int.to_unsigned, Int.modulus. rewrite Z.mod_small by lia. reflexivity.
  - intros Hd lu H. rewrite performs_read_iff in H.
    pose proof (Z.mod_pos_bound (clock b - lu) Int.modulus ltac:(reflexivity)) as Hm.
    unfold Int.to_unsigned in H. unfold Int.modulus in *. lia.
Qed.

Lemma first_update_and_maximal_delay_witness :
  (performs_read 0 device_w1 (mkBoard 250 [] []) <-> 250 > delayTime device_w1) /\
  (forall lastUpdate,
      ~ performs_read lastUpdate (setDelayTime device_w1 4294967295) (mkBoard 250 [] [])).
Proof.
  split.
  - apply (proj1 (first_update_and_maximal_delay device_w1 (mkBoard 250 [] []))).
    cbn. lia.
  - apply (proj2 (first_update_and_maximal_delay
                    (setDelayTime device_w1 4294967295) (mkBoard 250 [] []))).
    cbn. lia.
Defined.

(** X6: the rate limiter is shared by all instances: after a read through
    one device, an [update] of any other device within that device's
    delay does nothing but hand back the first read's timestamp. *)
Theorem rate_limit_shared_by_instances lastUpdate first second b1 b2 :
  performs_read lastUpdate first b1 ->
  Int.to_unsigned (clock b2 - clock b1) <= delayTime second ->
  update (fst (fst (update lastUpdate first b1))) second b2 = ((clock b1, second), b2).
Proof.
  intros Hread Hclose. rewrite performs_read_iff in Hread.
  rewrite update_fires_state by exact Hread. cbn [fst].
  apply update_gated. exact Hclose.
Qed.

Lemma rate_limit_shared_by_instances_witness :
  update (fst (fst (update 0 device_w1 board_25C))) device_w2 (mkBoard 1100 [] [])
  = ((clock board_25C, device_w2), mkBoard 1100 [] []).
Proof.
  apply (rate_limit_shared_by_instances 0 device_w1 device_w2 board_25C).
  - apply performs_read_iff. vm_compute. reflexivity.
  - vm_compute. discriminate.
Defined.

(** ** The cached mean and the queue *)

(** A NaN operand makes the sum NaN, and it stays NaN. *)
Lemma add_nan_r x : add x NAN = NAN.
Proof. destruct x; reflexivity. Qed.

Lemma fold_add_nan l : fold_left add l NAN = NAN.
Proof. induction l as [| x l IH]; [reflexivity | exact IH]. Qed.

Lemma fold_add_In_nan l acc : In NAN l -> fold_left add l acc = NAN.
Proof.
  revert acc. induction l as [| x l IH]; intros acc Hin; [contradiction |].
  cbn [fold_left]. destruct Hin as [-> | Hin].
  - rewrite add_nan_r. apply fold_add_nan.
  - apply IH, Hin.
Qed.

Lemma accessors_nan this :
  meanTempC this = NAN ->
  is_nan (readCelsius this) = true /\
  is_nan (readKelvin this) = true /\
  is_nan (readFahrenheit this) = true.
Proof.
  intros H. rewrite readKelvin_nan, readFahrenheit_nan. unfold readCelsius.
  rewrite H. repeat split.
Qed.

(** X7: after an [update] that reads, the cached mean is in step with
    the queue: the sum of the queue when it is full, NaN (for the three
    accessors) when it is not. *)
Theorem reading_update_refreshes_mean lastUpdate this b :
  Int.to_unsigned (clock b - lastUpdate) > delayTime this ->
  let this' := snd (fst (update lastUpdate this b)) in
  (Z.of_nat (length (dataPoints this')) = readingsNumber this' ->
   readCelsius this' = fold_left add (dataPoints this') zero) /\
  (Z.of_nat (length (dataPoints this')) <> readingsNumber this' ->
   is_nan (readCelsius this') = true /\
   is_nan (readKelvin this') = true /\
   is_nan (readFahrenheit this') = true).
Proof.
  intros Hgate this'. subst this'.
  rewrite update_fires_sample by exact Hgate. cbn [snd].
  destruct (store_config this (sample_of b)) as (Hw & _). rewrite Hw.
  pose proof (store_meanTempC this (sample_of b)) as Hmean.
  destruct (Z.eqb_spec (Z.of_nat (length (dataPoints (store this (sample_of b)))))
                       (readingsNumber this)) as [Heq | Hne].
  - split; [intros _; exact Hmean | intros H; contradiction].
  - split; [intros H; contradiction | intros _; apply accessors_nan, Hmean].
Qed.

Lemma reading_update_refreshes_mean_witness :
  let this' := snd (fst (update 0 device_w2 board_25C)) in
  is_nan (readCelsius this') = true /\
  is_nan (readKelvin this') = true /\
  is_nan (readFahrenheit this') = true.
Proof.
  apply (proj2 (reading_update_refreshes_mean 0 device_w2 board_25C
                  ltac:(vm_compute; reflexivity))).
  vm_compute. discriminate.
Defined.

(** X8: after an [update] that reads, a NaN anywhere in the queue makes
    the three accessors return NaN. *)
Theorem nan_in_window_poisons_mean lastUpdate this b :
  Int.to_unsigned (clock b - lastUpdate) > delayTime this ->
  let this' := snd (fst (update lastUpdate this b)) in
  In NAN (dataPoints this') ->
  is_nan (readCelsius this') = true /\
  is_nan (readKelvin this') = true /\
  is_nan (readFahrenheit this') = true.
Proof.
  intros Hgate this' Hin. apply accessors_nan. subst this'. revert Hin.
  rewrite update_fires_sample by exact Hgate. cbn [snd]. intros Hin.
  rewrite store_meanTempC.
  destruct (Z.of_nat _ =? readingsNumber this); [| reflexivity].
  apply fold_add_In_nan, Hin.
Qed.

Lemma nan_in_window_poisons_mean_witness :
  let this := mkDevice 13 10 12 2 250 [of_Z 5; NAN] NAN in
  let this' := snd (fst (update 0 this board_25C)) in
  is_nan (readCelsius this') = true /\
  is_nan (readKelvin this') = true /\
  is_nan (readFahrenheit this') = true.
Proof.
  apply (nan_in_window_poisons_mean 0 (mkDevice 13 10 12 2 250 [of_Z 5; NAN] NAN)
           board_25C).
  - vm_compute. reflexivity.
  - vm_compute. left. reflexivity.
Defined.

Lemma to_Q_finite x q : to_Q x = Some q -> is_finite x = true.
Proof. destruct x; cbn; congruence. Qed.

Lemma finite_not_nan x : is_finite x = true -> is_nan x = false.
Proof. destruct x; cbn; congruence. Qed.

Lemma construct_window_ok storage SCK CS SO n t b :
  window_ok (fst (construct storage SCK CS SO n t b)) /\
  dataPoints (fst (construct storage SCK CS SO n t b)) = [].
Proof.
  rewrite construct_device. split; [| reflexivity].
  pose proof (validate_ge (Int.to_unsigned n) MAX6675_DEFAULT_READINGS_NUMBER eq_refl).
  split; cbn [readingsNumber dataPoints length Z.of_nat]; lia.
Qed.

(** X9: warm-up of a freshly constructed device over a non-empty run of
    reading updates: the queue holds min(reads, window) elements; with
    fewer reads than the window the accessors return NaN; with at least
    as many, all valid, they return finite values. *)
Theorem fresh_device_warm_up storage SCK CS SO n t b0 lastUpdate boards :
  let this := fst (construct storage SCK CS SO n t b0) in
  let w := readingsNumber this in
  all_fire lastUpdate (delayTime this) boards ->
  boards <> [] ->
  let this' := snd (run lastUpdate this boards) in
  length (dataPoints this') = Nat.min (length boards) (Z.to_nat w) /\
  (Z.of_nat (length boards) < w ->
   is_nan (readCelsius this') = true /\
   is_nan (readKelvin this') = true /\
   is_nan (readFahrenheit this') = true) /\
  (w <= Z.of_nat (length boards) ->
   w < 4294967296 ->
   Forall (fun b => Z.testbit (clocked_word b) 2 = false) boards ->
   is_finite (readCelsius this') = true /\
   is_nan (readKelvin this') = false /\
   is_nan (readFahrenheit this') = false).
Proof.
  intros this w Hfire Hne this'.
  destruct (construct_window_ok storage SCK CS SO n t b0) as [Hok Hempty].
  fold this in Hok, Hempty.
  set (samples := map (fun b => fst (readValue this b)) boards).
  assert (Hrun : this' = fold_left store samples this) by (apply run_all_fire, Hfire).
  assert (Hsamples : length samples = length boards) by apply length_map.
  assert (Hq : dataPoints this' =
               map (fun s => div s (of_Z w)) (lastn (Z.to_nat w) samples)).
  { rewrite Hrun, fold_store_lastn by exact Hok. fold w.
    rewrite Hempty, app_nil_l. apply lastn_map. }
  assert (Hsize : length (dataPoints this') = Nat.min (length boards) (Z.to_nat w)).
  { rewrite Hq, length_map, length_lastn, Hsamples. lia. }
  assert (Hmean : meanTempC this' =
                  if Z.of_nat (length (dataPoints this')) =? w
                  then fold_left add (dataPoints this') zero else NAN).
  { rewrite Hrun. apply fold_store_mean.
    intros Hnil. apply Hne. destruct boards; [reflexivity | discriminate]. }
  destruct Hok as [Hw _]. fold w in Hw.
  split; [exact Hsize | split].
  - intros Hshort. apply accessors_nan. rewrite Hmean, Hsize.
    destruct (Z.eqb_spec (Z.of_nat (Nat.min (length boards) (Z.to_nat w))) w);
      [lia | reflexivity].
  - intros Hfull Hw32 Hvalid.
    assert (Hfin : is_finite (meanTempC this') = true).
    { rewrite Hmean, Hsize.
      destruct (Z.eqb_spec (Z.of_nat (Nat.min (length boards) (Z.to_nat w))) w);
        [| lia].
      rewrite Hq.
      destruct (window_mean_tolerance w (lastn (Z.to_nat w) samples)) as (q & Hq' & _).
      - lia.
      - apply Forall_lastn. unfold samples.
        clear - Hvalid. induction Hvalid as [| b boards Hb _ IH]; cbn [map]; constructor.
        + apply readValue_valid, Hb.
        + exact IH.
      - rewrite length_lastn. lia.
      - exact (to_Q_finite _ _ Hq'). }
    rewrite readKelvin_nan, readFahrenheit_nan. unfold readCelsius.
    rewrite (finite_not_nan _ Hfin). repeat split. exact Hfin.
Qed.

Lemma fresh_device_warm_up_witness :
  let this := fst (construct zero 13 10 12 3 250 board_reset) in
  let this' := snd (run 0 this boards_25_26_27) in
  length (dataPoints this') = 3%nat /\
  is_finite (readCelsius this') = true /\
  is_nan (readKelvin this') = false /\
  is_nan (readFahrenheit this') = false.
Proof.
  destruct (fresh_device_warm_up zero 13 10 12 3 250 board_reset 0 boards_25_26_27)
    as (H1 & _ & H3).
  - cbn. repeat split; reflexivity.
  - discriminate.
  - split; [exact H1 |]. apply H3; [cbn; lia | cbn; lia | repeat constructor].
Defined.

(** X10: the first reading [update] after [setReadingsNumber n] leaves a
    queue of exactly that one reading (pre-divided by the new window),
    and for a window [2 <= n < 2^32] the accessors return NaN. *)
Theorem resize_then_read this n lastUpdate b :
  Int.to_unsigned (clock b - lastUpdate) > delayTime this ->
  let resized := setReadingsNumber this n in
  let this' := snd (fst (update lastUpdate resized b)) in
  dataPoints this' =
    [div (fst (readValue resized b)) (of_Z (readingsNumber resized))] /\
  (2 <= n < 4294967296 ->
   is_nan (readCelsius this') = true /\
   is_nan (readKelvin this') = true /\
   is_nan (readFahrenheit this') = true).
Proof.
  intros Hgate resized this'.
  assert (Hgate' : Int.to_unsigned (clock b - lastUpdate) > delayTime resized) by exact Hgate.
  assert (Hwin : readingsNumber resized =
                 validate (Int.to_unsigned n) MAX6675_DEFAULT_READINGS_NUMBER)
    by reflexivity.
  assert (Hstore : forall v, dataPoints (store resized v) =
                             [div v (of_Z (readingsNumber resized))]).
  { intros v. rewrite store_dataPoints.
    pose proof (validate_ge (Int.to_unsigned n) MAX6675_DEFAULT_READINGS_NUMBER eq_refl)
      as Hpos.
    change (dataPoints resized) with (@nil double).
    rewrite Hwin. cbn [length Z.of_nat].
    destruct (Z.geb_spec 0 (validate (Int.to_unsigned n) MAX6675_DEFAULT_READINGS_NUMBER));
      [lia |].
    reflexivity. }
  split.
  - subst this'. rewrite update_fires_state by exact Hgate'. cbn [snd]. apply Hstore.
  - intros Hn. apply accessors_nan. subst this'.
    rewrite update_fires_sample by exact Hgate'. cbn [snd].
    rewrite store_meanTempC, Hstore, Hwin.
    rewrite to_unsigned_small by lia.
    rewrite validate_pos by lia.
    destruct (Z.eqb_spec (Z.of_nat (length [div (sample_of b) (of_Z n)])) n);
      [cbn in *; lia | reflexivity].
Qed.

Lemma resize_then_read_witness :
  let resized := setReadingsNumber (snd sketch_25C) 3 in
  let this' := snd (fst (update 1000 resized board_open)) in
  is_nan (readCelsius this') = true /\
  is_nan (readKelvin this') = true /\
  is_nan (readFahrenheit this') = true.
Proof.
  apply (proj2 (resize_then_read (snd sketch_25C) 3 1000 board_open
                  ltac:(vm_compute; reflexivity))).
  lia.
Defined.

(** [update] leaves the configuration and the pin assignment alone. *)
Lemma update_config lastUpdate this b :
  let this' := snd (fst (update lastUpdate this b)) in
  readingsNumber this' = readingsNumber this /\
  delayTime this' = delayTime this /\
  SCK_pin this' = SCK_pin this /\
  CS_pin this' = CS_pin this /\
  SO_pin this' = SO_pin this.
Proof.
  intros this'. subst this'.
  destruct (Z_gt_le_dec (Int.to_unsigned (clock b - lastUpdate)) (delayTime this))
    as [Hgt | Hle].
  - rewrite update_fires_sample by exact Hgt. cbn [snd]. apply store_config.
  - rewrite update_gated by exact Hle. repeat split.
Qed.

(** X14: in every reachable state the window size and the delay are
    positive. *)
Theorem configuration_stays_positive (s : Z * MAX6675_Thermocouple) :
  reachable s ->
  0 < readingsNumber (snd s) /\ 0 < delayTime (snd s).
Proof.
  induction 1 as [lu storage SCK CS SO n t b | lu storage SCK CS SO b
                 | lu this b _ IH | lu this n _ IH | lu this t _ IH]; cbn [snd] in *.
  - rewrite construct_device. cbn [readingsNumber delayTime].
    split; apply validate_ge; reflexivity.
  - unfold construct_default. rewrite construct_device. cbn [readingsNumber delayTime].
    split; apply validate_ge; reflexivity.
  - destruct (update_config lu this b) as (-> & -> & _). exact IH.
  - cbn [setReadingsNumber readingsNumber delayTime].
    split; [apply validate_ge; reflexivity | apply IH].
  - cbn [setDelayTime readingsNumber delayTime].
    split; [apply IH | apply validate_ge; reflexivity].
Qed.

Lemma configuration_stays_positive_witness :
  0 < readingsNumber (snd sketch_25C) /\ 0 < delayTime (snd sketch_25C).
Proof.
  apply (configuration_stays_positive sketch_25C).
  apply reach_update, reach_construct.
Defined.

(** X11: a window of 1 disables averaging: in a reachable state with
    [readingsNumber = 1], a valid read becomes the reported temperature
    bit for bit, i.e. exactly a quarter of the 13-bit count. *)
Theorem window_one_disables_averaging lastUpdate this b :
  reachable (lastUpdate, this) ->
  readingsNumber this = 1 ->
  Int.to_unsigned (clock b - lastUpdate) > delayTime this ->
  Z.testbit (clocked_word b) 2 = false ->
  let this' := snd (fst (update lastUpdate this b)) in
  readCelsius this' = fst (readValue this b) /\
  to_Q (readCelsius this') = Some (Qred (Z.shiftr (clocked_word b) 3 # 4)).
Proof.
  intros Hreach Hw Hgate Hflag this'.
  destruct (reachable_window_ok _ Hreach) as [_ Hlen]. cbn [snd] in Hlen.
  rewrite Hw in Hlen.
  assert (H : readCelsius this' = fst (readValue this b))
    by (apply window_one_passthrough; assumption).
  split; [exact H |]. rewrite H, readValue_value, Hflag.
  apply quarter_steps_exact.
  pose proof (msb_first_range 16 (SO_levels b)) as Hr. fold (clocked_word b) in Hr.
  change (2 ^ Z.of_nat 16) with 65536 in Hr.
  rewrite Z.shiftr_div_pow2 by lia. change (2 ^ 3) with 8.
  split; [apply Z.div_pos; lia | apply Z.div_lt_upper_bound; lia].
Qed.

Lemma window_one_disables_averaging_witness :
  let this' := snd (fst (update (fst sketch_25C) (snd sketch_25C)
                                (mkBoard 2000 (levels_of 16 (Z.shiftl 104 3)) []))) in
  readCelsius this' = of_Z 26 /\ to_Q (readCelsius this') = Some (26 # 1)%Q.
Proof.
  apply (window_one_disables_averaging (fst sketch_25C) (snd sketch_25C)
           (mkBoard 2000 (levels_of 16 (Z.shiftl 104 3)) [])).
  - rewrite <- surjective_pairing. apply reach_update, reach_construct.
  - reflexivity.
  - vm_compute. reflexivity.
  - reflexivity.
Defined.

(** ** The mean stays within the range of the readings *)

Lemma window_mean_shape w ss :
  1 <= w < 4294967296 ->
  Forall valid_reading ss ->
  Z.of_nat (length ss) = w ->
  let mean := fold_left add (map (fun s => div s (of_Z w)) ss) zero in
  nonneg_double mean /\
  (sum_val ss / inject_Z w - inject_Z w * e39 <= val mean
   <= sum_val ss / inject_Z w + inject_Z w * e39)%Q.
Proof.
  intros Hw Hss Hlen mean.
  assert (HW : (0 < inject_Z w)%Q) by (apply (inject_Z_lt 0); lia).
  pose proof (stored_elements w ss Hw Hss) as Hst.
  pose proof (sum_val_bound ss Hss) as [Hs0 Hs1]. rewrite Hlen in Hs1.
  assert (Hmean : (0 <= sum_val ss / inject_Z w <= 2048)%Q).
  { split.
    - apply Qle_shift_div_l; [exact HW | lra].
    - apply Qle_shift_div_r; [exact HW | exact Hs1]. }
  assert (Hbudget : (inject_Z w * e39 <= 1)%Q).
  { assert (Hle : (inject_Z w <= 4294967296)%Q) by (apply (inject_Z_le w 4294967296); lia).
    unfold e39. lra. }
  destruct (accumulate_all _ _ Hst zero 0%Q 0%Q) as [Hgood Hv].
  - left. reflexivity.
  - cbn [val zero]. lra.
  - apply Qle_refl.
  - rewrite sumQ_scaled. lra.
  - apply Qle_refl.
  - rewrite length_map, Hlen. lra.
  - rewrite length_map, Hlen, sumQ_scaled in Hv.
    split; [exact Hgood | subst mean; lra].
Qed.

Lemma sum_val_range (lo hi : Q) ss :
  Forall (fun s => (lo <= val s <= hi)%Q) ss ->
  (inject_Z (Z.of_nat (length ss)) * lo <= sum_val ss
   <= inject_Z (Z.of_nat (length ss)) * hi)%Q.
Proof.
  unfold sum_val. induction 1 as [| s ss Hs _ IH]; cbn [map sumQ length].
  - change (inject_Z (Z.of_nat 0)) with 0%Q. lra.
  - rewrite Nat2Z.inj_succ. unfold Z.succ. rewrite inject_Z_plus.
    change (inject_Z 1) with 1%Q.
    set (n := inject_Z (Z.of_nat (length ss))) in *.
    assert (E1 : ((n + 1) * lo == n * lo + lo)%Q) by ring.
    assert (E2 : ((n + 1) * hi == n * hi + hi)%Q) by ring.
    rewrite E1, E2. lra.
Qed.

(** X13: when the queue holds a full window of pre-divided valid
    readings whose values lie between [lo] and [hi], the mean that
    [recalculate] caches lies between [lo] and [hi] up to [w * 2^-39]. *)
Theorem mean_within_reading_range this ss (lo hi : Q) :
  let w := readingsNumber this in
  1 <= w < 4294967296 ->
  Z.of_nat (length ss) = w ->
  Forall valid_reading ss ->
  Forall (fun s => (lo <= val s <= hi)%Q) ss ->
  dataPoints this = map (fun s => div s (of_Z w)) ss ->
  exists q,
    to_Q (readCelsius (recalculate this)) = Some q /\
    (lo - inject_Z w * e39 <= q <= hi + inject_Z w * e39)%Q.
Proof.
  intros w Hw Hlen Hvalid Hrange Hq.
  assert (HW : (0 < inject_Z w)%Q) by (apply (inject_Z_lt 0); lia).
  destruct (window_mean_shape w ss Hw Hvalid Hlen) as [Hgood Hv].
  pose proof (sum_val_range lo hi ss Hrange) as [Hlo Hhi]. rewrite Hlen in Hlo, Hhi.
  assert (Hmlo : (lo <= sum_val ss / inject_Z w)%Q).
  { apply Qle_shift_div_l; [exact HW |]. rewrite Qmult_comm. exact Hlo. }
  assert (Hmhi : (sum_val ss / inject_Z w <= hi)%Q).
  { apply Qle_shift_div_r; [exact HW |]. rewrite Qmult_comm. exact Hhi. }
  unfold readCelsius, recalculate. cbn [meanTempC].
  rewrite Hq, length_map, Hlen. fold w. rewrite Z.eqb_refl. cbn [negb].
  set (mean := fold_left add (map (fun s => div s (of_Z w)) ss) zero) in *.
  destruct (to_Q_val mean) as (q & Hq' & Hqv).
  { destruct Hgood as [-> | (m & e & -> & _)]; reflexivity. }
  exists q. split; [exact Hq' |]. rewrite Hqv. lra.
Qed.

Lemma mean_within_reading_range_witness :
  let this := mkDevice 13 10 12 2 250
                [div (of_Z 25) (of_Z 2); div (of_Z 26) (of_Z 2)] NAN in
  exists q,
    to_Q (readCelsius (recalculate this)) = Some q /\
    (25 - inject_Z 2 * e39 <= q <= 26 + inject_Z 2 * e39)%Q.
Proof.
  apply (mean_within_reading_range
           (mkDevice 13 10 12 2 250 [div (of_Z 25) (of_Z 2); div (of_Z 26) (of_Z 2)] NAN)
           [of_Z 25; of_Z 26] 25 26).
  - cbn. lia.
  - reflexivity.
  - constructor; [| constructor; [| constructor]].
    + exists 100. split; [lia | vm_compute; reflexivity].
    + exists 104. split; [lia | vm_compute; reflexivity].
  - constructor; [| constructor; [| constructor]]; split; vm_compute; discriminate.
  - reflexivity.
Defined.

(** ** Accuracy of the unit conversions *)

Lemma mul_finite_error mx ex my ey :
  2 ^ 52 <= Z.pos my ->
  -1021 <= Zdigits2 (Z.pos (mx * my)) + (ex + ey) <= 1023 ->
  exists m' e',
    mul (S754_finite false mx ex) (S754_finite false my ey) = S754_finite false m' e' /\
    ((1 - u52) * (inject_Z (Z.pos mx) * qpow ex * (inject_Z (Z.pos my) * qpow ey))
     <= inject_Z (Z.pos m') * qpow e'
     <= (1 + u52) * (inject_Z (Z.pos mx) * qpow ex * (inject_Z (Z.pos my) * qpow ey)))%Q /\
    Zdigits2 (Z.pos (mx * my)) + (ex + ey) <= Zdigits2 (Z.pos m') + e'.
Proof.
  intros Hmy Hrange. unfold mul, SFmul. cbn [xorb].
  assert (HV : (inject_Z (Z.pos (mx * my)) * qpow (ex + ey) ==
                inject_Z (Z.pos mx) * qpow ex * (inject_Z (Z.pos my) * qpow ey))%Q).
  { rewrite Pos2Z.inj_mul, inject_Z_mult, qpow_add. ring. }
  destruct (binary_round_aux_error (Z.pos (mx * my)) (ex + ey) loc_Exact
              (inject_Z (Z.pos (mx * my)) * qpow (ex + ey))%Q)
    as (m' & e' & Heq & Hb & Hmag & _).
  - rewrite Pos2Z.inj_mul. nia.
  - exact Hrange.
  - split; [apply Qle_refl |].
    apply Qmult_lt_compat_r; [apply qpow_pos | lra].
  - exists m', e'. split; [exact Heq |]. rewrite HV in Hb.
    split; [exact Hb | lia].
Qed.

(** The values of the constants of the conversions. *)
Lemma conversion_constants :
  (inject_Z 5066549580791808 * qpow (-49) == 9)%Q /\
  (inject_Z 5629499534213120 * qpow (-50) == 5)%Q /\
  (inject_Z 4503599627370496 * qpow (-47) == 32)%Q /\
  (inject_Z 4805305618032230 * qpow (-44) == 2402652809016115 # 8796093022208)%Q.
Proof. repeat split. Qed.

Lemma nonneg_double_lower m e :
  -40 <= Zdigits2 (Z.pos m) + e -> (1 # 2199023255552 <= inject_Z (Z.pos m) * qpow e)%Q.
Proof.
  intros H. destruct (val_mag_bounds m e) as [Hlo _].
  pose proof (qpow_le (-41) (Zdigits2 (Z.pos m) + e - 1) ltac:(lia)) as Hq.
  assert (E : (qpow (-41) == 1 # 2199023255552)%Q) by reflexivity.
  rewrite E in Hq. lra.
Qed.

Lemma celsiusToKelvin_error c :
  nonneg_double c -> (val c <= 4096)%Q ->
  nonneg_double (celsiusToKelvin c) /\
  (val c + (27315 # 100) - e39 <= val (celsiusToKelvin c)
   <= val c + (27315 # 100) + e39)%Q.
Proof.
  intros Hc Hle. unfold celsiusToKelvin, c273_15.
  destruct conversion_constants as (_ & _ & _ & Hk).
  destruct Hc as [-> | (m & e & -> & Hmag)].
  - change (add (S754_zero false) ?x) with x. cbn [val].
    split; [right; do 2 eexists; split; [reflexivity | vm_compute; discriminate] |].
    rewrite Hk. unfold e39. lra.
  - cbn [val] in Hle |- *.
    pose proof (nonneg_double_lower m e Hmag) as Hlow.
    assert (Hup : Zdigits2 (Z.pos m) + e <= 13) by (apply val_le_mag; exact Hle).
    destruct (add_finite_error m e 4805305618032230 (-44) ltac:(lia)
                ltac:(vm_compute; split; discriminate)) as (m' & e' & Heq & Hb & Hm').
    rewrite Heq. cbn [val]. rewrite Hk in Hb. unfold u52 in Hb.
    split; [right; exists m', e'; split; [reflexivity | lia] |].
    unfold e39. lra.
Qed.

Lemma celsiusToFahrenheit_error c :
  nonneg_double c -> (val c <= 4096)%Q ->
  nonneg_double (celsiusToFahrenheit c) /\
  (val c * (9 # 5) + 32 - 4 * e39 <= val (celsiusToFahrenheit c)
   <= val c * (9 # 5) + 32 + 4 * e39)%Q.
Proof.
  intros Hc Hle. unfold celsiusToFahrenheit. rewrite c32_value. unfold c9_0, c5_0.
  destruct conversion_constants as (H9 & H5 & H32 & _).
  destruct Hc as [-> | (m & e & -> & Hmag)].
  - change (mul (S754_zero false) (S754_finite false 5066549580791808 (-49)))
      with (S754_zero false).
    change (div (S754_zero false) (S754_finite false 5629499534213120 (-50)))
      with (S754_zero false).
    change (add (S754_zero false) ?x) with x. cbn [val].
    split; [right; do 2 eexists; split; [reflexivity | vm_compute; discriminate] |].
    rewrite H32. unfold e39. lra.
  - cbn [val] in Hle.
    pose proof (nonneg_double_lower m e Hmag) as Hlow.
    set (vc := (inject_Z (Z.pos m) * qpow e)%Q) in *.
    (* the product with 9.0 *)
    assert (HV1 : (inject_Z (Z.pos (m * 5066549580791808)) * qpow (e + -49) == vc * 9)%Q).
    { rewrite Pos2Z.inj_mul, inject_Z_mult, qpow_add, <- H9. unfold vc. ring. }
    assert (Hr1 : -1021 <= Zdigits2 (Z.pos (m * 5066549580791808)) + (e + -49) <= 1023).
    { split.
      - assert (-40 <= Zdigits2 (Z.pos (m * 5066549580791808)) + (e + -49)); [| lia].
        apply mag_ge_of_le. rewrite HV1.
        assert (E : (qpow (-40 - 1) == 1 # 2199023255552)%Q) by reflexivity.
        rewrite E. lra.
      - assert (Zdigits2 (Z.pos (m * 5066549580791808)) + (e + -49) <= 17); [| lia].
        apply mag_le_of_lt. rewrite HV1.
        assert (E : (qpow 17 == 131072)%Q) by reflexivity.
        rewrite E. lra. }
    destruct (mul_finite_error m e 5066549580791808 (-49) ltac:(vm_compute; discriminate) Hr1)
      as (m1 & e1 & Heq1 & Hb1 & Hm1).
    rewrite Heq1. rewrite H9 in Hb1. fold vc in Hb1. unfold u52 in Hb1.
    set (v1 := (inject_Z (Z.pos m1) * qpow e1)%Q) in *.
    assert (Hu1 : Zdigits2 (Z.pos m1) + e1 <= 17).
    { apply mag_le_of_lt. fold v1.
      assert (E : (qpow 17 == 131072)%Q) by reflexivity. rewrite E. lra. }
    assert (Hl1 : -40 <= Zdigits2 (Z.pos m1) + e1).
    { apply mag_ge_of_le. fold v1.
      assert (E : (qpow (-40 - 1) == 1 # 2199023255552)%Q) by reflexivity.
      rewrite E. lra. }
    (* the quotient by 5.0 *)
    assert (Hd5 : Zdigits2 (Z.pos 5629499534213120) + -50 = 3) by reflexivity.
    destruct (div_finite_error m1 e1 5629499534213120 (-50) ltac:(lia))
      as (m2 & e2 & Heq2 & Hb2 & Hm2).
    rewrite Heq2. fold v1 in Hb2. rewrite H5 in Hb2. unfold u52 in Hb2.
    set (v2 := (inject_Z (Z.pos m2) * qpow e2)%Q) in *.
    assert (E5 : (v1 / 5 == v1 * (1 # 5))%Q) by (unfold Qdiv; reflexivity).
    rewrite E5 in Hb2.
    assert (Hu2 : Zdigits2 (Z.pos m2) + e2 <= 14).
    { apply mag_le_of_lt. fold v2.
      assert (E : (qpow 14 == 16384)%Q) by reflexivity. rewrite E. lra. }
    (* the sum with 32 *)
    assert (Hd32 : Zdigits2 (Z.pos 4503599627370496) + -47 = 6) by reflexivity.
    destruct (add_finite_error m2 e2 4503599627370496 (-47) ltac:(lia) ltac:(lia))
      as (m3 & e3 & Heq3 & Hb3 & Hm3).
    rewrite Heq3. fold v2 in Hb3. rewrite H32 in Hb3. unfold u52 in Hb3. cbn [val].
    split; [right; exists m3, e3; split; [reflexivity | lia] |].
    fold vc. clearbody vc v1 v2. unfold e39. lra.
Qed.

Lemma nonneg_double_to_Q x :
  nonneg_double x -> exists q, to_Q x = Some q /\ (q == val x)%Q.
Proof.
  intros H. apply to_Q_val. destruct H as [-> | (m & e & -> & _)]; reflexivity.
Qed.

(** X12: for a cached mean that is [+0] or a positive double up to 4096,
    [readKelvin] is finite and within 2^-39 of the mean plus 273.15, and
    [readFahrenheit] is finite and within 2^-37 of nine fifths of the
    mean plus 32. *)
Theorem conversions_accuracy this :
  nonneg_double (meanTempC this) ->
  (val (meanTempC this) <= 4096)%Q ->
  (exists k, to_Q (readKelvin this) = Some k /\
             (Qabs (k - (val (meanTempC this) + (27315 # 100))) <= e39)%Q) /\
  (exists f, to_Q (readFahrenheit this) = Some f /\
             (Qabs (f - (val (meanTempC this) * (9 # 5) + 32)) <= 4 * e39)%Q).
Proof.
  intros Hc Hle. unfold readKelvin, readFahrenheit, readCelsius.
  destruct (celsiusToKelvin_error _ Hc Hle) as [HK HKv].
  destruct (celsiusToFahrenheit_error _ Hc Hle) as [HF HFv].
  destruct (nonneg_double_to_Q _ HK) as (k & Hk & Hkv).
  destruct (nonneg_double_to_Q _ HF) as (f & Hf & Hfv).
  split.
  - exists k. split; [exact Hk |]. apply Qabs_Qle_condition. rewrite Hkv. lra.
  - exists f. split; [exact Hf |]. apply Qabs_Qle_condition. rewrite Hfv. lra.
Qed.

Lemma conversions_accuracy_witness :
  (exists k, to_Q (readKelvin (snd sketch_25C)) = Some k /\
             (Qabs (k - (val (meanTempC (snd sketch_25C)) + (27315 # 100))) <= e39)%Q) /\
  (exists f, to_Q (readFahrenheit (snd sketch_25C)) = Some f /\
             (Qabs (f - (val (meanTempC (snd sketch_25C)) * (9 # 5) + 32)) <= 4 * e39)%Q).
Proof.
  apply (conversions_accuracy (snd sketch_25C)).
  - right. exists 7036874417766400%positive, (-48).
    split; [vm_compute; reflexivity | vm_compute; discriminate].
  - vm_compute. discriminate.
Defined.

(** X16: [update] never changes the window size, the delay or the pin
    assignment, and never shortens the queue. *)
Theorem update_keeps_configuration lastUpdate this b :
  let this' := snd (fst (update lastUpdate this b)) in
  readingsNumber this' = readingsNumber this /\
  delayTime this' = delayTime this /\
  SCK_pin this' = SCK_pin this /\
  CS_pin this' = CS_pin this /\
  SO_pin this' = SO_pin this /\
  (length (dataPoints this) <= length (dataPoints this'))%nat.
Proof.
  intros this'.
  destruct (update_config lastUpdate this b) as (H1 & H2 & H3 & H4 & H5).
  repeat (split; [assumption |]).
  subst this'.
  destruct (Z_gt_le_dec (Int.to_unsigned (clock b - lastUpdate)) (delayTime this))
    as [Hgt | Hle].
  - rewrite update_fires_sample by exact Hgt. cbn [snd].
    rewrite store_dataPoints, length_push_back.
    destruct (Z.of_nat (length (dataPoints this)) >=? readingsNumber this).
    + rewrite length_pop_front. lia.
    + lia.
  - rewrite update_gated by exact Hle. cbn [fst snd]. lia.
Qed.

(** X15: when the queue holds a full window of pre-divided valid
    readings, after [recalculate] the three accessors return finite
    values within [w * 2^-39], [(w + 1) * 2^-39] and [(2 w + 4) * 2^-39]
    of the exact mean, the exact mean plus 273.15 and nine fifths of the
    exact mean plus 32. *)
Theorem full_window_accessors_accuracy this ss :
  let w := readingsNumber this in
  let exact := (sum_val ss / inject_Z w)%Q in
  1 <= w < 4294967296 ->
  Z.of_nat (length ss) = w ->
  Forall valid_reading ss ->
  dataPoints this = map (fun s => div s (of_Z w)) ss ->
  exists c k f,
    to_Q (readCelsius (recalculate this)) = Some c /\
    to_Q (readKelvin (recalculate this)) = Some k /\
    to_Q (readFahrenheit (recalculate this)) = Some f /\
    (Qabs (c - exact) <= inject_Z w * e39)%Q /\
    (Qabs (k - (exact + (27315 # 100))) <= (inject_Z w + 1) * e39)%Q /\
    (Qabs (f - (exact * (9 # 5) + 32)) <= (2 * inject_Z w + 4) * e39)%Q.
Proof.
  intros w exact Hw Hlen Hvalid Hq.
  assert (HW : (0 < inject_Z w)%Q) by (apply (inject_Z_lt 0); lia).
  destruct (window_mean_shape w ss Hw Hvalid Hlen) as [Hgood Hv].
  pose proof (sum_val_bound ss Hvalid) as [Hs0 Hs1]. rewrite Hlen in Hs1.
  assert (Hex : (0 <= exact <= 2048)%Q).
  { unfold exact. split.
    - apply Qle_shift_div_l; [exact HW | lra].
    - apply Qle_shift_div_r; [exact HW | exact Hs1]. }
  assert (Hbudget : (inject_Z w * e39 <= 1)%Q).
  { assert (Hle : (inject_Z w <= 4294967296)%Q) by (apply (inject_Z_le w 4294967296); lia).
    unfold e39. lra. }
  assert (Hmean : meanTempC (recalculate this) =
                  fold_left add (map (fun s => div s (of_Z w)) ss) zero).
  { unfold recalculate. cbn [meanTempC].
    rewrite Hq, length_map, Hlen. fold w. rewrite Z.eqb_refl. reflexivity. }
  unfold readKelvin, readFahrenheit, readCelsius. rewrite Hmean.
  set (mean := fold_left add (map (fun s => div s (of_Z w)) ss) zero) in *.
  fold exact in Hv.
  assert (Hle : (val mean <= 4096)%Q) by lra.
  destruct (celsiusToKelvin_error _ Hgood Hle) as [HK HKv].
  destruct (celsiusToFahrenheit_error _ Hgood Hle) as [HF HFv].
  destruct (nonneg_double_to_Q _ Hgood) as (c & Hc & Hcv).
  destruct (nonneg_double_to_Q _ HK) as (k & Hk & Hkv).
  destruct (nonneg_double_to_Q _ HF) as (f & Hf & Hfv).
  assert (He39 : (0 < e39)%Q) by reflexivity.
  exists c, k, f. repeat (split; [assumption |]).
  split; [| split]; apply Qabs_Qle_condition.
  - rewrite Hcv. lra.
  - rewrite Hkv. lra.
  - rewrite Hfv. lra.
Qed.

Lemma full_window_accessors_accuracy_witness :
  let this := mkDevice 13 10 12 2 250
                [div (of_Z 25) (of_Z 2); div (of_Z 26) (of_Z 2)] NAN in
  let exact := (sum_val [of_Z 25; of_Z 26] / inject_Z 2)%Q in
  exists c k f,
    to_Q (readCelsius (recalculate this)) = Some c /\
    to_Q (readKelvin (recalculate this)) = Some k /\
    to_Q (readFahrenheit (recalculate this)) = Some f /\
    (Qabs (c - exact) <= inject_Z 2 * e39)%Q /\
    (Qabs (k - (exact + (27315 # 100))) <= (inject_Z 2 + 1) * e39)%Q /\
    (Qabs (f - (exact * (9 # 5) + 32)) <= (2 * inject_Z 2 + 4) * e39)%Q.
Proof.
  apply (full_window_accessors_accuracy
           (mkDevice 13 10 12 2 250 [div (of_Z 25) (of_Z 2); div (of_Z 26) (of_Z 2)] NAN)
           [of_Z 25; of_Z 26]).
  - cbn. lia.
  - reflexivity.
  - constructor; [| constructor; [| constructor]].
    + exists 100. split; [lia | vm_compute; reflexivity].
    + exists 104. split; [lia | vm_compute; reflexivity].
  - reflexivity.
Defined.
